(** * protfasta: the FASTA reader and writer of [protfasta/io.py]

    A shallow embedding of [check_inputs], [internal_parse_fasta_file],
    [_parse_fasta_all] and [write_fasta_file], followed by the properties
    the specification states about them.

    Modelling conventions.
    - A Python [str] is a [list ascii].  The [str] methods the source calls
      ([strip], [upper]) are modelled on 7-bit text: [isspace] is Python's
      set of ASCII white space, [upper] maps [a-z] to [A-Z], and every other
      character is an ordinary caseless character.
    - A raised exception is the [Raise] branch of [result]; a function that
      raises returns nothing else.
    - A [dict] is an association list in insertion order (Python dicts
      iterate in insertion order); [PyDict.setitem] overwrites in place.
    - Text files are read and written as on POSIX: [write] stores the text
      unchanged, reading applies universal newlines.
    - [verbose] only prints and is left out. *)

From Stdlib Require Import Ascii String List Bool Arith ZArith Lia.
Import ListNotations.

(** ** Python strings *)

Module PyStr.

Abbreviation str := (list ascii) (only parsing).

Definition lit (s : string) : str := list_ascii_of_string s.

Definition LF : ascii := "010"%char.
Definition CR : ascii := "013"%char.
Definition GT : ascii := ">"%char.

(** [str.isspace] on one 7-bit character: TAB, LF, VT, FF, CR, the four
    separators FS, GS, RS, US, and the space. *)
Definition isspace (c : ascii) : bool :=
  let n := nat_of_ascii c in
  ((9 <=? n) && (n <=? 13)) || ((28 <=? n) && (n <=? 32)).

Fixpoint lstrip (s : str) : str :=
  match s with
  | [] => []
  | c :: t => if isspace c then lstrip t else s
  end.

Fixpoint rstrip (s : str) : str :=
  match s with
  | [] => []
  | c :: t =>
      match rstrip t with
      | [] => if isspace c then [] else [c]
      | t' => c :: t'
      end
  end.

(** [s.strip()] *)
Definition strip (s : str) : str := lstrip (rstrip s).

Definition upper_char (c : ascii) : ascii :=
  let n := nat_of_ascii c in
  if (97 <=? n) && (n <=? 122) then ascii_of_nat (n - 32) else c.

(** [s.upper()] *)
Definition upper (s : str) : str := map upper_char s.

(** [a == b] on strings *)
Fixpoint str_eqb (a b : str) : bool :=
  match a, b with
  | [], [] => true
  | x :: a', y :: b' => Ascii.eqb x y && str_eqb a' b'
  | _, _ => false
  end.

(** [x in l] for a list of strings *)
Definition str_in (x : str) (l : list str) : bool := existsb (str_eqb x) l.

(** The first line of [lines] gets [c] in front; with no line yet, [c]
    starts one. *)
Definition push_char (c : ascii) (lines : list str) : list str :=
  match lines with
  | [] => [[c]]
  | l :: ls => (c :: l) :: ls
  end.

(** [fh.readlines()] on a file opened with [open(filename,'r')]: universal
    newlines, so a line ends at LF, at CR LF or at a lone CR, and its
    terminator is delivered as LF; a last line without terminator is
    delivered as it is. *)
Fixpoint readlines (text : str) : list str :=
  match text with
  | [] => []
  | c :: t =>
      if Ascii.eqb c LF then [LF] :: readlines t
      else if Ascii.eqb c CR then
        match t with
        | d :: t' => if Ascii.eqb d LF then [LF] :: readlines t'
                     else [LF] :: readlines t
        | [] => [[LF]]
        end
      else push_char c (readlines t)
  end.

End PyStr.
Import PyStr.

(** ** Exceptions *)

(** [OtherException] is an exception of any other class, by the name of the
    class: what [open] and [readlines] raise apart from [FileNotFoundError]
    ([PermissionError], [IsADirectoryError], [UnicodeDecodeError], ...). *)
Inductive exn : Type :=
| ProtfastaException (msg : str)
| UnboundLocalError (name : str)
| OtherException (class_name : str).

Inductive result (A : Type) : Type :=
| Ok (a : A)
| Raise (e : exn).
Arguments Ok {A} a.
Arguments Raise {A} e.

Definition bind {A B} (m : result A) (k : A -> result B) : result B :=
  match m with
  | Ok a => k a
  | Raise e => Raise e
  end.

Notation "x <- m ;; k" := (bind m (fun x => k))
  (at level 61, m at next level, right associativity).

(** ** Python dicts with string keys *)

Module PyDict.

Definition pydict := list (str * str).

(** [k in d] *)
Definition contains (k : str) (d : pydict) : bool :=
  existsb (fun e => str_eqb k (fst e)) d.

(** [d[k] = v]: an existing key keeps its place and takes the new value, a
    new key goes last. *)
Fixpoint setitem (d : pydict) (k v : str) : pydict :=
  match d with
  | [] => [(k, v)]
  | (k', v') :: t =>
      if str_eqb k k' then (k', v) :: t else (k', v') :: setitem t k v
  end.

End PyDict.

(** ** The parser: [_parse_fasta_all] *)

Module Parser.

(** [mode]: ['dict'] or ['list'] ([internal_parse_fasta_file] passes
    ['list']). *)
Inductive mode := ModeDict | ModeList.

(** [return_data] and, in list mode, [all_headers].  In dict mode
    [return_data] is the dict and [all_headers] does not exist (it stays
    empty here and is never read). *)
Record store := Store {
  return_data : list (str * str);
  all_headers : list str
}.

(** The local variables of the parsing loop. *)
Record locals := Locals {
  seq : str;
  header : str;
  data : store
}.

Definition duplicate_message (header : str) : str :=
  lit "Found non-unique FASTA header [" ++ header ++ lit "]".

Section Closures.
Variable m : mode.
Variable expect_unique_header : bool.
Variable header_parser : option (str -> str).

Definition check_duplicate (header : str) (d : store) : result unit :=
  match m with
  | ModeDict =>
      if PyDict.contains header (return_data d)
      then Raise (ProtfastaException (duplicate_message header))
      else Ok tt
  | ModeList =>
      if expect_unique_header then
        if str_in header (all_headers d)
        then Raise (ProtfastaException (duplicate_message header))
        else Ok tt
      else Ok tt
  end.

Definition update (header seq : str) (d : store) : store :=
  match m with
  | ModeDict =>
      Store (PyDict.setitem (return_data d) header (upper seq))
            (all_headers d)
  | ModeList =>
      Store (return_data d ++ [(header, upper seq)])
            (all_headers d ++ [header])
  end.

(** [if len(seq) > 0: check_duplicate(); update()] *)
Definition finalize (st : locals) : result store :=
  if 0 <? length (seq st) then
    _ <- check_duplicate (header st) (data st) ;;
    Ok (update (header st) (seq st) (data st))
  else Ok (data st).

(** One turn of [for line in content]. *)
Definition parse_line (st : locals) (line : str) : result locals :=
  let sline := strip line in
  match sline with
  | [] => Ok st
  | c :: h =>
      if Ascii.eqb c GT then
        d <- finalize st ;;
        Ok (Locals []
                   (match header_parser with
                    | Some f => f h
                    | None => h
                    end)
                   d)
      else Ok (Locals (seq st ++ sline) (header st) (data st))
  end.

Fixpoint parse_lines (st : locals) (content : list str) : result locals :=
  match content with
  | [] => Ok st
  | line :: rest =>
      st' <- parse_line st line ;;
      parse_lines st' rest
  end.

Definition _parse_fasta_all (content : list str)
  : result (list (str * str)) :=
  st <- parse_lines (Locals [] [] (Store [] [])) content ;;
  d <- finalize st ;;
  Ok (return_data d).

End Closures.

(** What [open(filename,'r')] followed by [fh.readlines()] meets: no file of
    that name ([FileNotFoundError]), a file that cannot be opened or read
    (an exception of another class), or the text of the file. *)
Inductive file : Type :=
| NoSuchFile
| Unreadable (class_name : str)
| Contents (text : str).

(** [internal_parse_fasta_file]; [fs] is the file system.  Only
    [FileNotFoundError] is caught and turned into a [ProtfastaException];
    every other exception of the [try] block goes to the caller as it is. *)
Definition internal_parse_fasta_file (fs : str -> file)
    (filename : str) (expect_unique_header : bool)
    (header_parser : option (str -> str)) : result (list (str * str)) :=
  match fs filename with
  | NoSuchFile =>
      Raise (ProtfastaException (lit "Unable to find file: " ++ filename))
  | Unreadable class_name => Raise (OtherException class_name)
  | Contents text =>
      _parse_fasta_all ModeList expect_unique_header header_parser
                       (readlines text)
  end.

End Parser.
Import Parser.

(** ** The writer: [write_fasta_file] *)

Module Writer.

(** The open file and the local [wrotenewline], which is unbound ([None])
    until the character loop assigns it and which is not reset between
    entries. *)
Record wstate := WState {
  fh : str;
  wrotenewline : option bool
}.

(** [fh.write(text)] *)
Definition write (text : str) (st : wstate) : wstate :=
  WState (fh st ++ text) (wrotenewline st).

(** The override at the top of the function.  [linelength] is [None] for
    [None] and [False]; a number below 1 is turned into [False]. *)
Definition sane_linelength (linelength : option Z) : option Z :=
  match linelength with
  | None => None
  | Some n => if (n <? 1)%Z then None else Some n
  end.

(** [for i in range(0,len(seq))], entered at index [i] with the
    characters from [i] on. *)
Fixpoint write_chars (linelength : option Z) (i : Z) (seq : str)
    (st : wstate) : wstate :=
  match seq with
  | [] => st
  | c :: rest =>
      let st1 := WState (fh st ++ [c]) (Some false) in
      let st2 :=
        match linelength with
        | Some n =>
            if ((i + 1) mod n =? 0)%Z
            then WState (fh st1 ++ [LF]) (Some true)
            else st1
        | None => st1
        end in
      write_chars linelength (i + 1) rest st2
  end.

(** [for key in sequence_dict]; the result is the state of the file and
    the exception that ended the loop, if one did. *)
Fixpoint write_entries (linelength : option Z) (entries : PyDict.pydict)
    (st : wstate) : wstate * option exn :=
  match entries with
  | [] => (st, None)
  | (key, seq) :: rest =>
      let st1 := write ([GT] ++ key ++ [LF]) st in
      let st2 := write_chars linelength 0 seq st1 in
      match wrotenewline st2 with
      | None => (st2, Some (UnboundLocalError (lit "wrotenewline")))
      | Some true => write_entries linelength rest (write [LF] st2)
      | Some false => write_entries linelength rest (write [LF; LF] st2)
      end
  end.

(** The text left in the file, and the exception raised, if any. *)
Definition write_fasta_file (sequence_dict : PyDict.pydict)
    (linelength : option Z) : str * option exn :=
  let (st, e) :=
    write_entries (sane_linelength linelength) sequence_dict
                  (WState [] None) in
  (fh st, e).

End Writer.
Import Writer.

(** ** The validator: [check_inputs] *)

Module Validator.

(** A string object.  [x is 'ignore'] compares object identity, not
    content: CPython keeps one interned object per identifier-like string
    constant of the program text, so a string written as a literal is that
    object, and a string built at run time (read from a file or the
    command line, joined, sliced) is another object with the same
    characters. *)
Record pystring := PyString {
  interned : bool;
  chars : str
}.

(** What calling a function value on one string does. *)
Inductive outcome : Type :=
| Raises
| ReturnsStr (s : str)
| ReturnsOther.

(** The argument values [check_inputs] tells apart; [PyInt] stands for the
    values of every other type, which fail each of its tests alike. *)
Inductive pyval : Type :=
| PyNone
| PyBool (b : bool)
| PyInt (z : Z)
| PyStr (s : pystring)
| PyFunc (f : str -> outcome).

(** [type(v) != bool] *)
Definition not_bool (v : pyval) : bool :=
  match v with PyBool _ => false | _ => true end.

(** [v not in [...]] for a list of string literals: [==] on each. *)
Definition not_in (v : pyval) (keywords : list str) : bool :=
  match v with
  | PyStr s => negb (str_in (chars s) keywords)
  | _ => true
  end.

(** [v is '<literal>'] *)
Definition is_literal (v : pyval) (literal : str) : bool :=
  match v with
  | PyStr s => interned s && str_eqb (chars s) literal
  | _ => false
  end.

(** [v is True] *)
Definition is_True (v : pyval) : bool :=
  match v with PyBool true => true | _ => false end.

Definition fail (msg : str) : result unit := Raise (ProtfastaException msg).

Definition check_header_parser (header_parser : pyval) : result unit :=
  match header_parser with
  | PyNone => Ok tt
  | PyFunc f =>
      match f (lit "this test string should work") with
      | ReturnsStr _ => Ok tt
      | _ =>
          fail (lit "Something went wrong when testing the header_parser function."
                ++ [LF]
                ++ lit "Ensure that the test example works and that the function returns a string [type str]")
      end
  | _ =>
      fail (lit "keyword 'header_parser' must be a function [tested with callable()]")
  end.

Definition check_inputs
    (expect_unique_header header_parser duplicate_record_action
     duplicate_sequence_action invalid_sequence_action return_list
     output_filename verbose : pyval) : result unit :=
  _ <- (if not_bool expect_unique_header
        then fail (lit "keyword 'expect_unique_header' must be a boolean")
        else Ok tt) ;;
  _ <- check_header_parser header_parser ;;
  _ <- (if not_in duplicate_record_action
             [lit "ignore"; lit "fail"; lit "remove"]
        then fail (lit "keyword 'invalid_sequence' must be one of 'ignore','fail','remove'")
        else Ok tt) ;;
  _ <- (if not_in duplicate_sequence_action
             [lit "ignore"; lit "fail"; lit "remove"]
        then fail (lit "keyword 'invalid_sequence' must be one of 'ignore','fail', 'remove'")
        else Ok tt) ;;
  _ <- (if not_in invalid_sequence_action
             [lit "ignore"; lit "fail"; lit "remove"; lit "convert"]
        then fail (lit "keyword 'invalid_sequence' must be one of 'ignore','fail','remove','convert'")
        else Ok tt) ;;
  _ <- (if not_bool return_list
        then fail (lit "keyword 'verbose' must be a boolean")
        else Ok tt) ;;
  _ <- (match output_filename with
        | PyNone | PyStr _ => Ok tt
        | _ => fail (lit "keyword 'output_filename' must be a string")
        end) ;;
  _ <- (if not_bool verbose
        then fail (lit "keyword 'verbose' must be a boolean")
        else Ok tt) ;;
  if is_literal duplicate_record_action (lit "ignore") then
    if is_True expect_unique_header
    then fail (lit "Cannot expect unique headers and ignore duplicate records")
    else Ok tt
  else Ok tt.

End Validator.
Import Validator.

(** ** The specification's view of an input *)

Module Spec.

(** The specification's line classifier (section 4.2). *)
Inductive line_class : Type :=
| Blank
| HeaderLine (raw_header : str)
| Fragment (text : str).

Definition classify (line : str) : line_class :=
  match strip line with
  | [] => Blank
  | c :: h => if Ascii.eqb c GT then HeaderLine h else Fragment (c :: h)
  end.

Definition is_header (line : str) : bool :=
  match classify line with HeaderLine _ => true | _ => false end.

(** The header-transform hook applied to a raw header. *)
Definition transform (header_parser : option (str -> str)) (h : str) : str :=
  match header_parser with
  | Some f => f h
  | None => h
  end.

(** The trimmed fragment lines from the start of [content] up to the next
    header line or the end of input, blank lines skipped. *)
Fixpoint body_fragments (content : list str) : list str :=
  match content with
  | [] => []
  | line :: rest =>
      match classify line with
      | Blank => body_fragments rest
      | HeaderLine _ => []
      | Fragment text => text :: body_fragments rest
      end
  end.

(** The sequence text that follows a position: its fragments joined with
    no separator. *)
Definition body (content : list str) : str := concat (body_fragments content).

(** One entry per header line, in source order: the header and the
    sequence text that follows it, case untouched. *)
Fixpoint header_entries (header_parser : option (str -> str))
    (content : list str) : list (str * str) :=
  match content with
  | [] => []
  | line :: rest =>
      match classify line with
      | HeaderLine h =>
          (transform header_parser h, body rest)
          :: header_entries header_parser rest
      | _ => header_entries header_parser rest
      end
  end.

Definition nonempty (s : str) : bool := 0 <? length s.

Definition has_sequence (entry : str * str) : bool := nonempty (snd entry).

Definition stored (entry : str * str) : str * str :=
  (fst entry, upper (snd entry)).

(** The records of the header lines that are followed by sequence text. *)
Definition header_records (header_parser : option (str -> str))
    (content : list str) : list (str * str) :=
  map stored (filter has_sequence (header_entries header_parser content)).

(** All records of an input: the text before the first header line, if
    there is any, under the initial header [''], then the header records. *)
Definition records (header_parser : option (str -> str))
    (content : list str) : list (str * str) :=
  map stored
      (filter has_sequence
              (([], body content) :: header_entries header_parser content)).

(** The first string of [hs] that occurs in [seen] or earlier in [hs]. *)
Fixpoint first_duplicate (seen hs : list str) : option str :=
  match hs with
  | [] => None
  | h :: rest =>
      if str_in h seen then Some h else first_duplicate (seen ++ [h]) rest
  end.

(** Whether a finalize consults the committed headers. *)
Definition checks_headers (m : mode) (expect_unique_header : bool) : bool :=
  match m with
  | ModeDict => true
  | ModeList => expect_unique_header
  end.

(** Section 8: an input is well formed when its first non-blank line is a
    header line, every header line is followed by at least one fragment
    line before the next header line or the end, and the headers are
    pairwise distinct. *)
Definition well_formed (header_parser : option (str -> str))
    (content : list str) : Prop :=
  body_fragments content = []
  /\ Forall (fun e => snd e <> [])
            (header_entries header_parser content)
  /\ NoDup (map fst (header_entries header_parser content)).

Definition count_headers (content : list str) : nat :=
  length (filter is_header content).



(** Finalising the entries one after the other, as the loop does at each
    header line and at the end of input. *)
Fixpoint commit_all (m : mode) (expect_unique_header : bool)
    (entries : list (str * str)) (d : store) : result store :=
  match entries with
  | [] => Ok d
  | e :: rest =>
      _ <- check_duplicate m expect_unique_header (fst e) d ;;
      commit_all m expect_unique_header rest (update m (fst e) (snd e) d)
  end.

(** The headers a duplicate check looks through. *)
Definition seen (m : mode) (d : store) : list str :=
  match m with
  | ModeDict => map fst (return_data d)
  | ModeList => all_headers d
  end.

(** *** The layout of a written file *)

(** Whether the writer ends the line after the character of index [i]. *)
Definition breaks_after (linelength : option Z) (i : Z) : bool :=
  match linelength with
  | Some n => ((i + 1) mod n =? 0)%Z
  | None => false
  end.

(** The lines a sequence is laid out in: [cur] is the line begun so far,
    [seq] the characters from index [i] on. *)
Fixpoint wrap_from (linelength : option Z) (i : Z) (cur seq : str)
    : list str :=
  match seq with
  | [] => match cur with [] => [] | _ => [cur] end
  | c :: rest =>
      if breaks_after linelength i
      then (cur ++ [c]) :: wrap_from linelength (i + 1) [] rest
      else wrap_from linelength (i + 1) (cur ++ [c]) rest
  end.

Definition wrap (linelength : option Z) (seq : str) : list str :=
  wrap_from linelength 0 [] seq.

(** Section 4.4: the header line, the sequence lines, one blank line. *)
Definition entry_lines (linelength : option Z) (e : str * str) : list str :=
  (GT :: fst e) :: wrap linelength (snd e) ++ [[]].

(** Lines written out, each closed by a line break. *)
Definition terminated (lines : list str) : str :=
  concat (map (fun l => l ++ [LF]) lines).

Definition file_text (linelength : option Z) (d : PyDict.pydict) : str :=
  terminated (concat (map (entry_lines linelength) d)).

(** Lines of a wrapped sequence: all of them full but the last, which
    holds between one and [w] characters. *)
Fixpoint full_lines (w : nat) (lines : list str) : Prop :=
  match lines with
  | [] => True
  | [l] => 1 <= length l <= w
  | l :: rest => length l = w /\ full_lines w rest
  end.

Definition no_line_break (c : ascii) : bool :=
  negb (Ascii.eqb c LF || Ascii.eqb c CR).

Definition sequence_char (c : ascii) : bool :=
  negb (isspace c || Ascii.eqb c GT).

(** A header that survives a line of its own: no line break in it and no
    white space at its end. *)
Definition plain_header (h : str) : bool :=
  forallb no_line_break h && str_eqb (rstrip h) h.

(** A sequence that survives being cut into lines anywhere: not empty,
    and free of white space and of the header marker. *)
Definition plain_sequence (s : str) : bool :=
  nonempty s && forallb sequence_char s.

Definition plain_entry (e : str * str) : bool :=
  plain_header (fst e) && plain_sequence (snd e).

(** Section 8, round trip: the mapping is written without error and the
    text written parses back to the same headers with the upper-cased
    sequences. *)
Definition round_trip (m : mode) (u : bool) (sequence_dict : PyDict.pydict)
    (linelength : option Z) : Prop :=
  exists text,
    write_fasta_file sequence_dict linelength = (text, None)
    /\ _parse_fasta_all m u None (readlines text)
       = Ok (map stored sequence_dict).

End Spec.
Import Spec.

(** ** Sample inputs *)

Module Samples.

(** [">A\nmk\n\n v \n>B\nQRS\n"] *)
Definition two_records : str :=
  lit ">A" ++ [LF] ++ lit "mk" ++ [LF; LF] ++ lit " v " ++ [LF]
  ++ lit ">B" ++ [LF] ++ lit "QRS" ++ [LF].

(** [">A\nXYZ\n>A\nQRS\n"] *)
Definition repeated_header : str :=
  lit ">A" ++ [LF] ++ lit "XYZ" ++ [LF] ++ lit ">A" ++ [LF] ++ lit "QRS" ++ [LF].

(** [">A\n>B\nMKV\n>C\n"] *)
Definition dropped_headers : str :=
  lit ">A" ++ [LF] ++ lit ">B" ++ [LF] ++ lit "MKV" ++ [LF] ++ lit ">C" ++ [LF].

(** ["MKV\n>B\nQRS\n"] *)
Definition text_before_header : str :=
  lit "MKV" ++ [LF] ++ lit ">B" ++ [LF] ++ lit "QRS" ++ [LF].

(** [" >A\r\nmk\rv\n>A\nQRS"]: CR LF, a lone CR, LF, and a last line
    without terminator. *)
Definition mixed_endings : str :=
  lit " >A" ++ [CR; LF] ++ lit "mk" ++ [CR] ++ lit "v" ++ [LF]
  ++ lit ">A" ++ [LF] ++ lit "QRS".

End Samples.

(** ** Further views of inputs and options *)

Module Views.

(** The trimmed text of every fragment line of an input, in source order. *)
Fixpoint fragments (content : list str) : list str :=
  match content with
  | [] => []
  | line :: rest =>
      match classify line with
      | Fragment text => text :: fragments rest
      | _ => fragments rest
      end
  end.

(** The record of the text before the first header line, if there is any. *)
Definition leading_record (content : list str) : list (str * str) :=
  map stored (filter has_sequence [([], body content)]).

Definition rename_header (f : str -> str) (r : str * str) : str * str :=
  (f (fst r), snd r).

(** A lower-case letter [a-z]. *)
Definition is_lower (c : ascii) : bool :=
  let n := nat_of_ascii c in (97 <=? n) && (n <=? 122).

(** A text with every LF turned into CR LF. *)
Fixpoint to_crlf (text : str) : str :=
  match text with
  | [] => []
  | c :: t => if Ascii.eqb c LF then CR :: LF :: to_crlf t else c :: to_crlf t
  end.

(** A string with one of the given contents. *)
Definition is_keyword (v : pyval) (keywords : list str) : bool :=
  match v with
  | PyStr s => str_in (chars s) keywords
  | _ => false
  end.

Definition is_bool (v : pyval) : bool :=
  match v with PyBool _ => true | _ => false end.

(** [None], or a function that returns a string on the probe string. *)
Definition passes_probe (header_parser : pyval) : bool :=
  match header_parser with
  | PyNone => true
  | PyFunc f =>
      match f (lit "this test string should work") with
      | ReturnsStr _ => true
      | _ => false
      end
  | _ => false
  end.

Definition none_or_str (v : pyval) : bool :=
  match v with PyNone | PyStr _ => true | _ => false end.

(** The options [check_inputs] lets through. *)
Definition accepted
    (expect_unique_header header_parser duplicate_record_action
     duplicate_sequence_action invalid_sequence_action return_list
     output_filename verbose : pyval) : bool :=
  is_bool expect_unique_header
  && passes_probe header_parser
  && is_keyword duplicate_record_action [lit "ignore"; lit "fail"; lit "remove"]
  && is_keyword duplicate_sequence_action [lit "ignore"; lit "fail"; lit "remove"]
  && is_keyword invalid_sequence_action
       [lit "ignore"; lit "fail"; lit "remove"; lit "convert"]
  && is_bool return_list
  && none_or_str output_filename
  && is_bool verbose
  && negb (is_literal duplicate_record_action (lit "ignore")
           && is_True expect_unique_header).

End Views.
Import Views.

(** * Properties *)

(** ** Strings *)

Lemma str_eqb_refl (a : str) : str_eqb a a = true.
Proof.
  induction a as [|x a IH]; simpl; [reflexivity|].
  now rewrite Ascii.eqb_refl, IH.
Qed.

Lemma str_eqb_eq (a b : str) : str_eqb a b = true <-> a = b.
Proof.
  split.
  - revert b. induction a as [|x a IH]; destruct b as [|y b]; simpl;
      try discriminate; [reflexivity|].
    intros H. apply andb_prop in H as [Hx Hr].
    apply Ascii.eqb_eq in Hx. apply IH in Hr. now subst.
  - intros ->. apply str_eqb_refl.
Qed.

Lemma str_in_In (x : str) (l : list str) : str_in x l = true <-> In x l.
Proof.
  unfold str_in. rewrite existsb_exists. split.
  - intros (y & Hy & E). apply str_eqb_eq in E. now subst.
  - intros H. exists x. split; [assumption|apply str_eqb_refl].
Qed.

Lemma str_in_false (x : str) (l : list str) : str_in x l = false <-> ~ In x l.
Proof.
  rewrite <- str_in_In. destruct (str_in x l); split; intros H;
    try discriminate; try reflexivity; try (now intros E); now destruct H.
Qed.

Lemma upper_app (a b : str) : upper (a ++ b) = upper a ++ upper b.
Proof. apply map_app. Qed.

Lemma nonempty_upper (s : str) : nonempty (upper s) = nonempty s.
Proof. unfold nonempty, upper. now rewrite length_map. Qed.

Lemma nonempty_true (s : str) : nonempty s = true <-> s <> [].
Proof.
  destruct s; simpl; split; intros H; try discriminate; try reflexivity;
    now try destruct H.
Qed.

(** ** The parsing loop finalises the entries of the input in order *)

Section Assembler.
Variable m : mode.
Variable u : bool.
Variable hp : option (str -> str).

Lemma finalize_commit (st : locals) :
  finalize m u st
  = commit_all m u (filter has_sequence [(header st, seq st)]) (data st).
Proof.
  unfold finalize, has_sequence, nonempty. simpl.
  destruct (0 <? length (seq st)); simpl; [|reflexivity].
  now destruct (check_duplicate m u (header st) (data st)).
Qed.

Lemma parse_lines_commit (content : list str) : forall st,
  (st' <- parse_lines m u hp st content ;; finalize m u st')
  = commit_all m u
      (filter has_sequence
         ((header st, seq st ++ body content) :: header_entries hp content))
      (data st).
Proof.
  induction content as [|line rest IH]; intros st.
  - simpl. unfold body. simpl. rewrite app_nil_r. apply finalize_commit.
  - cbn [parse_lines header_entries]. unfold body, parse_line.
    cbn [body_fragments]. unfold classify.
    destruct (strip line) as [|c h] eqn:E.
    + simpl. apply IH.
    + destruct (Ascii.eqb c GT) eqn:Ec.
      * cbn [concat]. rewrite app_nil_r, finalize_commit.
        change (filter has_sequence ((header st, seq st) :: ?l))
          with (if has_sequence (header st, seq st)
                then (header st, seq st) :: filter has_sequence l
                else filter has_sequence l).
        change (filter has_sequence [(header st, seq st)])
          with (if has_sequence (header st, seq st)
                then [(header st, seq st)] else []).
        destruct (has_sequence (header st, seq st));
          cbn [commit_all bind fst snd].
        -- destruct (check_duplicate m u (header st) (data st));
             cbn [bind filter commit_all]; [|reflexivity].
           rewrite IH. reflexivity.
        -- cbn [bind filter commit_all]. rewrite IH. reflexivity.
      * cbn [bind concat]. rewrite IH. cbn [header seq data].
        now rewrite app_assoc.
Qed.

Lemma parse_commit (content : list str) :
  _parse_fasta_all m u hp content
  = (d <- commit_all m u
            (filter has_sequence
                    (([], body content) :: header_entries hp content))
            (Store [] []) ;;
     Ok (return_data d)).
Proof.
  unfold _parse_fasta_all.
  pose proof (parse_lines_commit content (Locals [] [] (Store [] []))) as E.
  cbn [header seq data app] in E.
  etransitivity;
    [|exact (f_equal (fun r => d <- r ;; Ok (return_data d)) E)].
  now destruct (parse_lines m u hp (Locals [] [] (Store [] [])) content).
Qed.

End Assembler.

(** ** What finalising a run of entries returns *)

Lemma contains_seen (h : str) (d : PyDict.pydict) :
  PyDict.contains h d = str_in h (map fst d).
Proof.
  unfold PyDict.contains, str_in.
  induction d as [|e d IH]; simpl; [reflexivity|]. now rewrite IH.
Qed.

Lemma setitem_fresh (d : PyDict.pydict) (k v : str) :
  PyDict.contains k d = false -> PyDict.setitem d k v = d ++ [(k, v)].
Proof.
  induction d as [|[k' v'] d IH]; simpl; [reflexivity|].
  intros H. apply orb_false_elim in H as [Hk Hd].
  rewrite Hk. now rewrite IH.
Qed.

Lemma map_fst_stored (es : list (str * str)) :
  map fst (map stored es) = map fst es.
Proof. rewrite map_map. reflexivity. Qed.

Lemma commit_all_unchecked (es : list (str * str)) : forall d,
  commit_all ModeList false es d
  = Ok (Store (return_data d ++ map stored es) (all_headers d ++ map fst es)).
Proof.
  induction es as [|e es IH]; intros d; simpl.
  - rewrite !app_nil_r. now destruct d.
  - rewrite IH. simpl. now rewrite <- !app_assoc.
Qed.

Lemma commit_all_checked (m : mode) (u : bool) (es : list (str * str)) :
  checks_headers m u = true ->
  forall d,
    commit_all m u es d
    = match first_duplicate (seen m d) (map fst es) with
      | Some h => Raise (ProtfastaException (duplicate_message h))
      | None =>
          Ok (Store (return_data d ++ map stored es)
                    (match m with
                     | ModeDict => all_headers d
                     | ModeList => all_headers d ++ map fst es
                     end))
      end.
Proof.
  intros Hc. induction es as [|e es IH]; intros d.
  - simpl. rewrite !app_nil_r. destruct d, m; reflexivity.
  - cbn [commit_all map first_duplicate].
    destruct m; simpl in Hc; subst; cbn [check_duplicate seen].
    + rewrite contains_seen.
      destruct (str_in (fst e) (map fst (return_data d))) eqn:E;
        [reflexivity|].
      cbn [bind]. rewrite IH. cbn [seen update return_data all_headers].
      rewrite <- contains_seen in E. rewrite (setitem_fresh _ _ _ E).
      rewrite map_app. cbn [map fst]. rewrite <- app_assoc. reflexivity.
    + destruct (str_in (fst e) (all_headers d)) eqn:E; [reflexivity|].
      cbn [bind]. rewrite IH. cbn [seen update return_data all_headers].
      rewrite <- !app_assoc. reflexivity.
Qed.

(** The whole parse, in every mode: the records of the input, unless a
    header that is checked comes a second time. *)
Lemma parse_characterisation (m : mode) (u : bool) (hp : option (str -> str))
    (content : list str) :
  _parse_fasta_all m u hp content
  = if checks_headers m u then
      match first_duplicate [] (map fst (records hp content)) with
      | Some h => Raise (ProtfastaException (duplicate_message h))
      | None => Ok (records hp content)
      end
    else Ok (records hp content).
Proof.
  rewrite parse_commit. unfold records. rewrite map_fst_stored.
  destruct (checks_headers m u) eqn:Hc.
  - rewrite (commit_all_checked _ _ _ Hc).
    replace (seen m (Store [] [])) with (@nil str) by now destruct m.
    now destruct (first_duplicate _ _).
  - destruct m; simpl in Hc; [discriminate|]. subst.
    now rewrite commit_all_unchecked.
Qed.

Lemma first_duplicate_None (hs : list str) : forall seen,
  first_duplicate seen hs = None <->
  NoDup hs /\ (forall h, In h hs -> ~ In h seen).
Proof.
  induction hs as [|h hs IH]; intros seen; simpl.
  - split; [intros _; split; [constructor|now intros]|reflexivity].
  - destruct (str_in h seen) eqn:E.
    + split; [discriminate|]. intros [_ H]. apply str_in_In in E.
      now destruct (H h (or_introl eq_refl)).
    + apply str_in_false in E. rewrite IH. split.
      * intros [Hn Hd]. split.
        -- constructor; [|assumption]. intros Hin.
           apply (Hd h Hin). apply in_or_app. right. now left.
        -- intros x [<-|Hx]; [assumption|]. intros Hs.
           apply (Hd x Hx). apply in_or_app. now left.
      * intros [Hn Hd]. inversion Hn as [|? ? Hnot Hn']; subst. split;
          [assumption|].
        intros x Hx Hs. apply in_app_or in Hs as [Hs|[<-|[]]].
        -- apply (Hd x); [now right|assumption].
        -- now apply Hnot.
Qed.

Lemma first_duplicate_NoDup (hs : list str) :
  first_duplicate [] hs = None <-> NoDup hs.
Proof.
  rewrite first_duplicate_None. split; [now intros [H _]|].
  intros H. split; [assumption|]. now intros.
Qed.

Lemma first_duplicate_Some (hs : list str) : forall seen h,
  first_duplicate seen hs = Some h -> In h hs.
Proof.
  induction hs as [|x hs IH]; intros seen h; simpl; [discriminate|].
  destruct (str_in x seen).
  - intros [= ->]. now left.
  - intros H. right. eapply IH, H.
Qed.

Lemma first_duplicate_split (hs : list str) : forall seen h,
  first_duplicate seen hs = Some h ->
  exists pre post,
    hs = pre ++ h :: post
    /\ In h (seen ++ pre)
    /\ first_duplicate seen pre = None.
Proof.
  induction hs as [|x hs IH]; intros seen h; simpl; [discriminate|].
  destruct (str_in x seen) eqn:E.
  - intros [= ->]. exists [], hs. rewrite app_nil_r.
    repeat split. now apply str_in_In.
  - intros H. destruct (IH _ _ H) as (pre & post & -> & Hin & Hpre).
    exists (x :: pre), post. repeat split.
    + now rewrite <- app_assoc in Hin.
    + simpl. now rewrite E.
Qed.

(** ** Records of an input split at a line *)

Lemma body_fragments_at_header (pre : list str) (hl h : str) (post : list str) :
  classify hl = HeaderLine h ->
  body_fragments (pre ++ hl :: post) = body_fragments pre.
Proof.
  intros H. induction pre as [|l pre IH]; simpl.
  - now rewrite H.
  - destruct (classify l); [assumption|reflexivity|now rewrite IH].
Qed.

Lemma header_entries_at_header (hp : option (str -> str)) (pre : list str)
    (hl h : str) (post : list str) :
  classify hl = HeaderLine h ->
  header_entries hp (pre ++ hl :: post)
  = header_entries hp pre ++ (transform hp h, body post) :: header_entries hp post.
Proof.
  intros H. induction pre as [|l pre IH]; simpl.
  - now rewrite H.
  - destruct (classify l); try assumption.
    unfold body at 1 2. rewrite (body_fragments_at_header _ _ _ _ H).
    now rewrite IH.
Qed.

Lemma records_at_header (hp : option (str -> str)) (pre : list str)
    (hl h : str) (post : list str) :
  classify hl = HeaderLine h ->
  records hp (pre ++ hl :: post)
  = records hp pre
    ++ (if nonempty (body post)
        then [(transform hp h, upper (body post))] else [])
    ++ header_records hp post.
Proof.
  intros H. unfold records, header_records, body at 1.
  rewrite (body_fragments_at_header _ _ _ _ H).
  rewrite (header_entries_at_header _ _ _ _ _ H).
  change (([], concat (body_fragments pre))
          :: header_entries hp pre ++ (transform hp h, body post) :: header_entries hp post)
    with ((([], body pre) :: header_entries hp pre)
          ++ [(transform hp h, body post)] ++ header_entries hp post).
  rewrite !filter_app, !map_app. f_equal. f_equal.
  cbn [filter]. unfold has_sequence at 1. cbn [snd].
  now destruct (nonempty (body post)).
Qed.

Lemma body_fragments_blank (pre : list str) (b : str) (post : list str) :
  classify b = Blank ->
  body_fragments (pre ++ b :: post) = body_fragments (pre ++ post).
Proof.
  intros H. induction pre as [|l pre IH]; simpl.
  - now rewrite H.
  - destruct (classify l); [assumption|reflexivity|now rewrite IH].
Qed.

Lemma header_entries_blank (hp : option (str -> str)) (pre : list str)
    (b : str) (post : list str) :
  classify b = Blank ->
  header_entries hp (pre ++ b :: post) = header_entries hp (pre ++ post).
Proof.
  intros H. induction pre as [|l pre IH]; simpl.
  - now rewrite H.
  - destruct (classify l); try assumption.
    unfold body. rewrite (body_fragments_blank _ _ _ H). now rewrite IH.
Qed.

Lemma records_blank (hp : option (str -> str)) (pre : list str) (b : str)
    (post : list str) :
  classify b = Blank -> records hp (pre ++ b :: post) = records hp (pre ++ post).
Proof.
  intros H. unfold records, body.
  now rewrite (body_fragments_blank _ _ _ H), (header_entries_blank _ _ _ _ H).
Qed.

(** A blank line changes no parse, wherever it stands. *)
Lemma blank_line_transparent (m : mode) (u : bool) (hp : option (str -> str))
    (pre : list str) (b : str) (post : list str) :
  classify b = Blank ->
  _parse_fasta_all m u hp (pre ++ b :: post) = _parse_fasta_all m u hp (pre ++ post).
Proof.
  intros H. rewrite !parse_characterisation. now rewrite (records_blank _ _ _ _ H).
Qed.

Lemma header_entries_length (hp : option (str -> str)) (content : list str) :
  length (header_entries hp content) = count_headers content.
Proof.
  unfold count_headers. induction content as [|l rest IH]; simpl;
    [reflexivity|].
  unfold is_header. destruct (classify l); simpl; now rewrite ?IH.
Qed.

Lemma filter_all {A} (f : A -> bool) (l : list A) :
  Forall (fun x => f x = true) l -> filter f l = l.
Proof.
  induction 1 as [|x l Hx _ IH]; simpl; [reflexivity|]. now rewrite Hx, IH.
Qed.

Lemma records_well_formed (hp : option (str -> str)) (content : list str) :
  well_formed hp content ->
  records hp content = map stored (header_entries hp content).
Proof.
  intros (Hlead & Hseq & _). unfold records, body. rewrite Hlead.
  cbn [concat filter]. unfold has_sequence at 1. cbn [snd nonempty length Nat.ltb Nat.leb].
  f_equal. apply filter_all. eapply Forall_impl; [|exact Hseq].
  intros e He. now apply nonempty_true.
Qed.

Lemma records_have_sequence (hp : option (str -> str)) (content : list str) :
  Forall (fun r => snd r <> []) (records hp content).
Proof.
  unfold records. apply Forall_map. apply Forall_forall.
  intros e He. apply filter_In in He as [_ He].
  unfold stored, has_sequence in *. cbn [snd].
  apply nonempty_true. now rewrite nonempty_upper.
Qed.

(** ** The parser *)

(** C1.  On a well-formed input (the first non-blank line is a header line,
    every header line is followed by a fragment line, the headers are
    distinct) list mode returns one record per header line, in source order,
    whose sequence is the upper-cased concatenation of the trimmed fragment
    lines up to the next header line; a blank line put anywhere into the
    input leaves these records as they are. *)
Theorem list_mode_parses_well_formed_input (u : bool)
    (hp : option (str -> str)) (content : list str) :
  well_formed hp content ->
  _parse_fasta_all ModeList u hp content
  = Ok (map stored (header_entries hp content))
  /\ length (map stored (header_entries hp content)) = count_headers content
  /\ (forall pre b post,
        content = pre ++ post -> classify b = Blank ->
        _parse_fasta_all ModeList u hp (pre ++ b :: post)
        = Ok (map stored (header_entries hp content))).
Proof.
  intros Hwf.
  assert (Hparse : _parse_fasta_all ModeList u hp content
                   = Ok (map stored (header_entries hp content))).
  { rewrite parse_characterisation, (records_well_formed _ _ Hwf).
    cbn [checks_headers]. destruct u; [|reflexivity].
    rewrite map_fst_stored.
    destruct Hwf as (_ & _ & Hnd). apply first_duplicate_NoDup in Hnd.
    now rewrite Hnd. }
  split; [exact Hparse|]. split.
  - rewrite length_map. apply header_entries_length.
  - intros pre b post -> Hb. now rewrite (blank_line_transparent _ _ _ _ _ _ Hb).
Qed.

Lemma list_mode_parses_well_formed_input_witness :
  well_formed None (readlines Samples.two_records)
  /\ _parse_fasta_all ModeList true None (readlines Samples.two_records)
     = Ok [(lit "A", lit "MKV"); (lit "B", lit "QRS")].
Proof.
  assert (Hwf : well_formed None (readlines Samples.two_records)).
  { split; [reflexivity|]. split.
    - vm_compute. repeat constructor; discriminate.
    - vm_compute. repeat constructor; simpl; intuition discriminate. }
  split; [exact Hwf|].
  exact (proj1 (list_mode_parses_well_formed_input true None _ Hwf)).
Defined.

(** C2.  A header line contributes exactly one record when sequence text
    follows it before the next header line or the end of input, and no
    record otherwise: the records of [pre ++ hl :: post] are those of [pre],
    then the record of [hl] if its sequence text is not empty, then those of
    the later header lines.  No returned record has an empty sequence. *)
Theorem record_iff_sequence_follows (m : mode) (u : bool)
    (hp : option (str -> str)) (pre : list str) (hl h : str) (post : list str) :
  classify hl = HeaderLine h ->
  let expected :=
    records hp pre
    ++ (if nonempty (body post)
        then [(transform hp h, upper (body post))] else [])
    ++ header_records hp post in
  _parse_fasta_all ModeList false hp (pre ++ hl :: post) = Ok expected
  /\ (forall recs,
        _parse_fasta_all m u hp (pre ++ hl :: post) = Ok recs -> recs = expected)
  /\ Forall (fun r => snd r <> []) expected.
Proof.
  intros H expected.
  assert (E : records hp (pre ++ hl :: post) = expected)
    by apply (records_at_header _ _ _ _ _ H).
  rewrite <- E. split; [|split].
  - now rewrite parse_characterisation.
  - intros recs. rewrite parse_characterisation.
    destruct (checks_headers m u); [destruct (first_duplicate _ _)|];
      congruence.
  - apply records_have_sequence.
Qed.

Lemma record_iff_sequence_follows_witness :
  classify (lit ">B" ++ [LF]) = HeaderLine (lit "B")
  /\ _parse_fasta_all ModeList false None (readlines Samples.dropped_headers)
     = Ok [(lit "B", lit "MKV")].
Proof.
  split; [reflexivity|].
  exact (proj1 (record_iff_sequence_follows ModeList false None
                  [lit ">A" ++ [LF]] (lit ">B" ++ [LF]) (lit "B")
                  [lit "MKV" ++ [LF]; lit ">C" ++ [LF]] eq_refl)).
Defined.

(** C5.  [">A\nXYZ\n>A\nQRS\n"] in list mode: with [expect_unique_header]
    the parse raises the duplicate-header error, without it the parse
    returns two records, both headed [A]. *)
Theorem repeated_header_list_mode :
  _parse_fasta_all ModeList true None (readlines Samples.repeated_header)
  = Raise (ProtfastaException (lit "Found non-unique FASTA header [A]"))
  /\ _parse_fasta_all ModeList false None (readlines Samples.repeated_header)
     = Ok [(lit "A", lit "XYZ"); (lit "A", lit "QRS")].
Proof. split; reflexivity. Qed.

(** C6.  Dict mode, whatever [expect_unique_header] is: when the headers of
    the finalised records are pairwise distinct the parse returns exactly
    these records, and when one comes a second time the parse raises the
    duplicate-header error for it; no entry is overwritten. *)
Theorem dict_mode_rejects_reused_header (u : bool) (hp : option (str -> str))
    (content : list str) :
  (NoDup (map fst (records hp content))
   /\ _parse_fasta_all ModeDict u hp content = Ok (records hp content))
  \/ (~ NoDup (map fst (records hp content))
      /\ exists h,
           In h (map fst (records hp content))
           /\ _parse_fasta_all ModeDict u hp content
              = Raise (ProtfastaException (duplicate_message h))).
Proof.
  rewrite parse_characterisation. cbn [checks_headers].
  destruct (first_duplicate [] (map fst (records hp content))) as [h|] eqn:E.
  - right. split.
    + intros Hnd. apply first_duplicate_NoDup in Hnd. congruence.
    + exists h. split; [eapply first_duplicate_Some, E|reflexivity].
  - left. split; [now apply first_duplicate_NoDup|reflexivity].
Qed.

(** C7.  A parse returns all records of the input or raises and returns
    nothing.  [_parse_fasta_all] returns the complete collection exactly
    when no checked header is repeated (list mode without
    [expect_unique_header], or pairwise distinct record headers); when a
    checked header is repeated it raises the duplicate-header error for the
    first repeated header and returns no record at all, those finalised
    before the repeat included.  [internal_parse_fasta_file] raises a
    [ProtfastaException] for a missing file, lets every other failure of
    [open] or [readlines] through, and otherwise is [_parse_fasta_all] in
    list mode on the lines of the file; on [" >A\r\nmk\rv\n>A\nQRS"] these
    are four lines, and the parse raises with [expect_unique_header] and
    returns both records without it. *)
Theorem parse_all_or_nothing (m : mode) (u : bool) (hp : option (str -> str))
    (content : list str) (fs : str -> file) (filename : str) :
  (((checks_headers m u = false \/ NoDup (map fst (records hp content)))
    /\ _parse_fasta_all m u hp content = Ok (records hp content))
   \/ (checks_headers m u = true
       /\ ~ NoDup (map fst (records hp content))
       /\ exists pre h post,
            map fst (records hp content) = pre ++ h :: post
            /\ NoDup pre /\ In h pre
            /\ _parse_fasta_all m u hp content
               = Raise (ProtfastaException (duplicate_message h))))
  /\ match fs filename with
     | NoSuchFile =>
         internal_parse_fasta_file fs filename u hp
         = Raise (ProtfastaException (lit "Unable to find file: " ++ filename))
     | Unreadable class_name =>
         internal_parse_fasta_file fs filename u hp
         = Raise (OtherException class_name)
     | Contents text =>
         internal_parse_fasta_file fs filename u hp
         = _parse_fasta_all ModeList u hp (readlines text)
     end
  /\ readlines Samples.mixed_endings
     = [lit " >A" ++ [LF]; lit "mk" ++ [LF]; lit "v" ++ [LF];
        lit ">A" ++ [LF]; lit "QRS"]
  /\ internal_parse_fasta_file (fun _ => Contents Samples.mixed_endings)
       filename true None
     = Raise (ProtfastaException (lit "Found non-unique FASTA header [A]"))
  /\ internal_parse_fasta_file (fun _ => Contents Samples.mixed_endings)
       filename false None
     = Ok [(lit "A", lit "MKV"); (lit "A", lit "QRS")].
Proof.
  split; [|split; [|split; [|split]]]; try reflexivity.
  - rewrite parse_characterisation.
    destruct (checks_headers m u) eqn:Hc; [|left; split; [now left|reflexivity]].
    destruct (first_duplicate [] (map fst (records hp content))) as [h|] eqn:E.
    + right. split; [reflexivity|]. split.
      * intros Hnd. apply first_duplicate_NoDup in Hnd. congruence.
      * destruct (first_duplicate_split _ _ _ E) as (pre & post & Hs & Hin & Hp).
        exists pre, h, post. repeat split; try assumption.
        now apply first_duplicate_NoDup.
    + left. split; [right; now apply first_duplicate_NoDup|reflexivity].
  - unfold internal_parse_fasta_file. now destruct (fs filename).
Qed.






(** ** The writer *)

Lemma terminated_app (a b : list str) :
  terminated (a ++ b) = terminated a ++ terminated b.
Proof. unfold terminated. now rewrite map_app, concat_app. Qed.

Lemma terminated_cons (l : str) (ls : list str) :
  terminated (l :: ls) = l ++ [LF] ++ terminated ls.
Proof. unfold terminated. simpl. now rewrite <- app_assoc. Qed.

(** The character loop writes the lines of [wrap_from]; with the separator
    that follows it, the text ends in exactly one blank line. *)
Lemma write_chars_lines (linelength : option Z) (s : str) :
  forall i f cur fl,
    s <> [] \/ fl = Some (negb (nonempty cur)) ->
    exists b,
      wrotenewline (write_chars linelength i s (WState (f ++ cur) fl)) = Some b
      /\ fh (write_chars linelength i s (WState (f ++ cur) fl))
         ++ (if b then [LF] else [LF; LF])
         = f ++ terminated (wrap_from linelength i cur s) ++ [LF].
Proof.
  induction s as [|c t IH]; intros i f cur fl Hfl.
  - destruct Hfl as [Hs | ->]; [now destruct Hs|].
    exists (negb (nonempty cur)). split; [reflexivity|]. simpl.
    destruct cur as [|x cur]; simpl; [now rewrite app_nil_r|].
    unfold terminated. simpl. rewrite app_nil_r.
    now rewrite <- !app_assoc.
  - cbn [write_chars wrap_from fh]. unfold breaks_after.
    destruct linelength as [n|].
    + destruct ((i + 1) mod n =? 0)%Z.
      * cbn [fh].
        replace ((f ++ cur) ++ [c]) with (f ++ (cur ++ [c]))
          by now rewrite app_assoc.
        replace ((f ++ cur ++ [c]) ++ [LF]) with ((f ++ (cur ++ [c]) ++ [LF]) ++ [])
          by now rewrite app_nil_r, <- !app_assoc.
        destruct (IH (i + 1)%Z (f ++ (cur ++ [c]) ++ [LF]) [] (Some true))
          as (b & Hb & E); [now right|].
        exists b. split; [exact Hb|]. rewrite E, terminated_cons.
        now rewrite <- !app_assoc.
      * replace ((f ++ cur) ++ [c]) with (f ++ (cur ++ [c]))
          by now rewrite app_assoc.
        apply IH. right. now destruct cur.
    + replace ((f ++ cur) ++ [c]) with (f ++ (cur ++ [c]))
        by now rewrite app_assoc.
      apply IH. right. now destruct cur.
Qed.

(** Entries with sequence text are written as [file_text] lays them out. *)
Lemma write_entries_text (linelength : option Z) (d : PyDict.pydict) :
  Forall (fun e => snd e <> []) d ->
  forall st, exists fl,
    write_entries linelength d st
    = (WState (fh st ++ file_text linelength d) fl, None).
Proof.
  induction 1 as [|[key s] d Hs _ IH]; intros st.
  - exists (wrotenewline st). simpl. unfold file_text, terminated. simpl.
    rewrite app_nil_r. now destruct st.
  - cbn [write_entries]. cbn [snd] in Hs.
    destruct (write_chars_lines linelength s 0%Z
                (fh (write ([GT] ++ key ++ [LF]) st)) []
                (wrotenewline (write ([GT] ++ key ++ [LF]) st)) (or_introl Hs))
      as (b & Hb & E).
    rewrite app_nil_r in Hb, E.
    replace (WState (fh (write ([GT] ++ key ++ [LF]) st))
                    (wrotenewline (write ([GT] ++ key ++ [LF]) st)))
      with (write ([GT] ++ key ++ [LF]) st) in Hb, E
      by now destruct st.
    rewrite Hb.
    assert (Hnext : forall st',
              fh st' = fh st ++ terminated (entry_lines linelength (key, s)) ->
              exists fl, write_entries linelength d st'
                         = (WState (fh st ++ file_text linelength ((key, s) :: d)) fl, None)).
    { intros st' Hfh. destruct (IH st') as (fl & Hfl). exists fl.
      rewrite Hfl, Hfh. unfold file_text. cbn [map concat].
      now rewrite terminated_app, <- app_assoc. }
    assert (Hfh : fh (write_chars linelength 0 s (write ([GT] ++ key ++ [LF]) st))
                  ++ (if b then [LF] else [LF; LF])
                  = fh st ++ terminated (entry_lines linelength (key, s))).
    { rewrite E. unfold entry_lines, wrap. cbn [fst snd write fh].
      rewrite terminated_cons, terminated_app.
      change (terminated [[]]) with [LF].
      rewrite <- !app_assoc. reflexivity. }
    destruct b; apply Hnext; cbn [write fh]; exact Hfh.
Qed.

Lemma wrap_from_concat (linelength : option Z) (s : str) : forall i cur,
  concat (wrap_from linelength i cur s) = cur ++ s.
Proof.
  induction s as [|c t IH]; intros i cur; simpl.
  - destruct cur; simpl; now rewrite ?app_nil_r.
  - destruct (breaks_after linelength i); simpl; rewrite IH;
      now rewrite <- ?app_assoc.
Qed.

Lemma wrap_from_unlimited (s : str) : forall i cur,
  cur ++ s <> [] -> wrap_from None i cur s = [cur ++ s].
Proof.
  induction s as [|c t IH]; intros i cur H; simpl.
  - rewrite app_nil_r in *. now destruct cur.
  - rewrite IH; rewrite <- app_assoc; [reflexivity|]. now destruct cur.
Qed.

Lemma full_lines_cons (w : nat) (l : str) (rest : list str) :
  1 <= w -> length l = w -> full_lines w rest -> full_lines w (l :: rest).
Proof.
  intros Hw Hl Hr. destruct rest; simpl; [lia|]. now split.
Qed.

Lemma wrap_from_full_lines (n : Z) (s : str) :
  (1 <= n)%Z ->
  forall i cur,
    (0 <= i)%Z -> Z.of_nat (length cur) = (i mod n)%Z ->
    full_lines (Z.to_nat n) (wrap_from (Some n) i cur s).
Proof.
  intros Hn. induction s as [|c t IH]; intros i cur Hi Hcur.
  - simpl. destruct cur as [|x cur]; [exact I|].
    pose proof (Z.mod_pos_bound i n ltac:(lia)). simpl in *. lia.
  - cbn [wrap_from breaks_after].
    pose proof (Z.mod_pos_bound i n ltac:(lia)) as Hb.
    assert (Hstep : ((i + 1) mod n = (i mod n + 1) mod n)%Z).
    { destruct (Z.eq_dec n 1) as [->|Hn1].
      - now rewrite !Z.mod_1_r.
      - rewrite Z.add_mod by lia. now rewrite (Z.mod_small 1 n) by lia. }
    destruct ((i + 1) mod n =? 0)%Z eqn:E.
    + apply Z.eqb_eq in E.
      apply full_lines_cons; [lia| |apply IH; [lia|now rewrite E]].
      rewrite length_app. simpl.
      assert (i mod n + 1 = n)%Z; [|lia].
      destruct (Z.eq_dec (i mod n + 1) n) as [|Hlt]; [assumption|].
      rewrite Hstep, Z.mod_small in E by lia. lia.
    + apply Z.eqb_neq in E. apply IH; [lia|].
      rewrite length_app. simpl. rewrite Hstep.
      destruct (Z.eq_dec (i mod n + 1) n) as [Heq|Hlt].
      * rewrite Hstep, Heq, Z.mod_same in E by lia. now destruct E.
      * rewrite Z.mod_small by lia. lia.
Qed.

Lemma sane_linelength_bound (linelength : option Z) (n : Z) :
  sane_linelength linelength = Some n -> (1 <= n)%Z.
Proof.
  destruct linelength as [k|]; simpl; [|discriminate].
  destruct (k <? 1)%Z eqn:E; [discriminate|].
  intros [= <-]. apply Z.ltb_ge in E. exact E.
Qed.

(** C4.  An entry with sequence text is written as its header line, the
    sequence in lines of [wrap_width] characters (all full but the last, one
    single line when wrapping is off), and one blank line; [ABCDE] at width
    2 gives [AB], [CD], [E] and a blank line.  An entry whose sequence is
    empty, standing first, is not: the writer stops after the header line
    with [wrotenewline] unbound. *)
Theorem writer_wraps_but_needs_sequence_text (key : str) (c : ascii) (t : str)
    (linelength : option Z) :
  let w := sane_linelength linelength in
  write_fasta_file [(key, c :: t)] linelength
  = (terminated ((GT :: key) :: wrap w (c :: t) ++ [[]]), None)
  /\ concat (wrap w (c :: t)) = c :: t
  /\ match w with
     | Some n => full_lines (Z.to_nat n) (wrap w (c :: t))
     | None => wrap w (c :: t) = [c :: t]
     end
  /\ write_fasta_file [(lit "H", lit "ABCDE")] (Some 2%Z)
     = (lit ">H" ++ [LF] ++ lit "AB" ++ [LF] ++ lit "CD" ++ [LF]
        ++ lit "E" ++ [LF; LF], None)
  /\ write_fasta_file [(key, [])] linelength
     = (GT :: key ++ [LF], Some (UnboundLocalError (lit "wrotenewline"))).
Proof.
  intros w. split; [|split; [|split; [|split]]].
  - unfold write_fasta_file. fold w.
    destruct (write_entries_text w [(key, c :: t)]
                ltac:(constructor; [simpl; discriminate|constructor])
                (WState [] None))
      as (fl & E).
    rewrite E. cbn [fh app]. unfold file_text. cbn [map concat].
    now rewrite app_nil_r.
  - apply (wrap_from_concat w (c :: t) 0%Z []).
  - destruct w as [n|] eqn:E.
    + apply wrap_from_full_lines;
        [eapply sane_linelength_bound, E|lia|now rewrite Zmod_0_l].
    + now apply (wrap_from_unlimited (c :: t) 0%Z []).
  - reflexivity.
  - unfold write_fasta_file. cbn [write_entries write_chars write fh wrotenewline app].
    reflexivity.
Qed.

(** C10.  A first entry with an empty sequence makes the writer raise the
    unbound-variable error after the header line, whatever follows and
    whatever the wrap width; a later entry with an empty sequence gets the
    separator the previous entry left in [wrotenewline]: one line break
    after an entry that ended on a wrap boundary, two otherwise. *)
Theorem empty_sequence_separator_unassigned (key : str)
    (rest : PyDict.pydict) (linelength : option Z) (f : str) (b : bool) :
  write_fasta_file ((key, []) :: rest) linelength
  = (GT :: key ++ [LF], Some (UnboundLocalError (lit "wrotenewline")))
  /\ write_entries linelength ((key, []) :: rest) (WState f (Some b))
     = write_entries linelength rest
         (WState (f ++ (GT :: key ++ [LF]) ++ (if b then [LF] else [LF; LF]))
                 (Some b))
  /\ write_fasta_file [(lit "A", lit "AB"); (lit "B", [])] (Some 2%Z)
     = (lit ">A" ++ [LF] ++ lit "AB" ++ [LF; LF] ++ lit ">B" ++ [LF; LF], None)
  /\ write_fasta_file [(lit "A", lit "ABC"); (lit "B", [])] (Some 2%Z)
     = (lit ">A" ++ [LF] ++ lit "AB" ++ [LF] ++ lit "C" ++ [LF; LF]
        ++ lit ">B" ++ [LF; LF; LF], None).
Proof.
  split; [|split; [|split]]; try reflexivity.
  cbn [write_entries write_chars write fh wrotenewline app].
  destruct b; unfold write; cbn [fh wrotenewline]; f_equal; f_equal;
    repeat (rewrite <- app_assoc || rewrite <- app_comm_cons); reflexivity.
Qed.

(** ** The validator *)

(** C8.  [check_inputs] compares [duplicate_record_action] with the literal
    ['ignore'] by identity.  With [expect_unique_header] true and the other
    options such that validation passes for the policy ['fail'], the policy
    ['ignore'] is rejected when the string is the interned literal and is
    accepted when it is an equal string built at run time. *)
Theorem ignore_policy_checked_by_identity (i : bool)
    (header_parser duplicate_sequence_action invalid_sequence_action
     return_list output_filename verbose : pyval) :
  check_inputs (PyBool true) header_parser
    (PyStr (PyString i (lit "ignore")))
    duplicate_sequence_action invalid_sequence_action return_list
    output_filename verbose
  = match check_inputs (PyBool true) header_parser
            (PyStr (PyString true (lit "fail")))
            duplicate_sequence_action invalid_sequence_action return_list
            output_filename verbose with
    | Ok _ =>
        if i
        then fail (lit "Cannot expect unique headers and ignore duplicate records")
        else Ok tt
    | Raise e => Raise e
    end
  /\ check_inputs (PyBool true) PyNone
       (PyStr (PyString false (lit "ignore")))
       (PyStr (PyString true (lit "fail")))
       (PyStr (PyString true (lit "fail")))
       (PyBool true) PyNone (PyBool false)
     = Ok tt.
Proof.
  split; [|reflexivity].
  unfold check_inputs. cbn [not_bool bind].
  destruct (check_header_parser header_parser); cbn [bind]; [|reflexivity].
  change (not_in (PyStr (PyString i (lit "ignore")))
                 [lit "ignore"; lit "fail"; lit "remove"]) with false.
  change (not_in (PyStr (PyString true (lit "fail")))
                 [lit "ignore"; lit "fail"; lit "remove"]) with false.
  cbn [bind].
  destruct (not_in duplicate_sequence_action _); cbn [bind fail]; [reflexivity|].
  destruct (not_in invalid_sequence_action _); cbn [bind fail]; [reflexivity|].
  destruct (not_bool return_list); cbn [bind fail]; [reflexivity|].
  destruct output_filename; cbn [bind fail]; try reflexivity;
    (destruct (not_bool verbose); cbn [bind fail]; [reflexivity|]);
    destruct i; reflexivity.
Qed.

(** ** Reading back what was written *)

Lemma sequence_char_not_space (c : ascii) :
  sequence_char c = true -> isspace c = false /\ Ascii.eqb c GT = false.
Proof.
  unfold sequence_char. intros H. apply negb_true_iff in H.
  now apply orb_false_elim in H.
Qed.

Lemma not_space_no_line_break (c : ascii) :
  isspace c = false -> no_line_break c = true.
Proof.
  intros H. unfold no_line_break. apply negb_true_iff, orb_false_intro.
  - destruct (Ascii.eqb c LF) eqn:E; [|reflexivity].
    apply Ascii.eqb_eq in E. subst. discriminate.
  - destruct (Ascii.eqb c CR) eqn:E; [|reflexivity].
    apply Ascii.eqb_eq in E. subst. discriminate.
Qed.

Lemma readlines_line (l rest : str) :
  Forall (fun c => no_line_break c = true) l ->
  readlines (l ++ LF :: rest) = (l ++ [LF]) :: readlines rest.
Proof.
  induction 1 as [|c l Hc _ IH]; [reflexivity|].
  unfold no_line_break in Hc. apply negb_true_iff in Hc.
  apply orb_false_elim in Hc as [Hlf Hcr].
  cbn [app readlines]. now rewrite Hlf, Hcr, IH.
Qed.

Lemma readlines_terminated (lines : list str) :
  Forall (Forall (fun c => no_line_break c = true)) lines ->
  readlines (terminated lines) = map (fun l => l ++ [LF]) lines.
Proof.
  induction 1 as [|l lines Hl _ IH]; [reflexivity|].
  rewrite terminated_cons. cbn [app map].
  now rewrite (readlines_line _ _ Hl), IH.
Qed.

Lemma rstrip_space_end (l : str) (c : ascii) :
  isspace c = true -> rstrip (l ++ [c]) = rstrip l.
Proof.
  intros Hc. induction l as [|x l IH]; simpl; [now rewrite Hc|].
  now rewrite IH.
Qed.

Lemma rstrip_no_space (l : str) :
  Forall (fun c => isspace c = false) l -> rstrip l = l.
Proof.
  induction 1 as [|c l Hc _ IH]; simpl; [reflexivity|].
  rewrite IH. destruct l; [now rewrite Hc|reflexivity].
Qed.

Lemma rstrip_cons_not_space (c : ascii) (l : str) :
  isspace c = false -> rstrip (c :: l) = c :: rstrip l.
Proof. intros Hc. simpl. destruct (rstrip l); [now rewrite Hc|reflexivity]. Qed.

Lemma classify_blank_line : classify [LF] = Blank.
Proof. reflexivity. Qed.

Lemma classify_fragment_line (l : str) :
  l <> [] -> Forall (fun c => sequence_char c = true) l ->
  classify (l ++ [LF]) = Fragment l.
Proof.
  intros Hne Hl. unfold classify, strip.
  rewrite rstrip_space_end by reflexivity.
  rewrite rstrip_no_space
    by (eapply Forall_impl; [|exact Hl]; intros c Hc;
        now apply sequence_char_not_space in Hc).
  destruct Hl as [|c l Hc _]; [now destruct Hne|].
  apply sequence_char_not_space in Hc as [Hs Hg].
  cbn [lstrip]. now rewrite Hs, Hg.
Qed.

Lemma classify_header_line (k : str) :
  rstrip k = k -> classify ((GT :: k) ++ [LF]) = HeaderLine k.
Proof.
  intros Hk. unfold classify, strip.
  rewrite rstrip_space_end by reflexivity.
  rewrite rstrip_cons_not_space by reflexivity. now rewrite Hk.
Qed.

Lemma wrap_from_lines (Q : ascii -> Prop) (linelength : option Z) (s : str) :
  forall i cur,
    Forall Q cur -> Forall Q s ->
    Forall (fun l => l <> [] /\ Forall Q l) (wrap_from linelength i cur s).
Proof.
  induction s as [|c t IH]; intros i cur Hcur Hs; simpl.
  - destruct cur; constructor; [|constructor]. split; [discriminate|assumption].
  - inversion Hs as [|? ? Hc Ht]; subst.
    assert (Hcur' : Forall Q (cur ++ [c]))
      by (apply Forall_app; split; [assumption|now constructor]).
    destruct (breaks_after linelength i).
    + constructor; [|apply IH; [constructor|assumption]].
      split; [now destruct cur|assumption].
    + now apply IH.
Qed.

Lemma body_fragments_fragment_lines (ls : list str) (rest : list str) :
  Forall (fun l => l <> [] /\ Forall (fun c => sequence_char c = true) l) ls ->
  body_fragments (map (fun l => l ++ [LF]) ls ++ rest)
  = ls ++ body_fragments rest.
Proof.
  induction 1 as [|l ls [Hne Hl] _ IH]; [reflexivity|].
  cbn [map app body_fragments].
  now rewrite (classify_fragment_line _ Hne Hl), IH.
Qed.

Lemma header_entries_fragment_lines (hp : option (str -> str))
    (ls : list str) (rest : list str) :
  Forall (fun l => l <> [] /\ Forall (fun c => sequence_char c = true) l) ls ->
  header_entries hp (map (fun l => l ++ [LF]) ls ++ rest)
  = header_entries hp rest.
Proof.
  induction 1 as [|l ls [Hne Hl] _ IH]; [reflexivity|].
  cbn [map app header_entries].
  now rewrite (classify_fragment_line _ Hne Hl), IH.
Qed.

Lemma forallb_Forall {A} (f : A -> bool) (l : list A) :
  forallb f l = true -> Forall (fun x => f x = true) l.
Proof. intros H. apply Forall_forall. now apply forallb_forall. Qed.

Lemma plain_entry_spec (k s : str) :
  plain_entry (k, s) = true ->
  Forall (fun c => no_line_break c = true) k
  /\ rstrip k = k
  /\ s <> []
  /\ Forall (fun c => sequence_char c = true) s.
Proof.
  unfold plain_entry, plain_header, plain_sequence. cbn [fst snd].
  intros H. apply andb_prop in H as [Hk Hs].
  apply andb_prop in Hk as [Hk1 Hk2]. apply andb_prop in Hs as [Hs1 Hs2].
  repeat split.
  - now apply forallb_Forall.
  - now apply str_eqb_eq.
  - now apply nonempty_true.
  - now apply forallb_Forall.
Qed.

Lemma wrap_lines_plain (linelength : option Z) (s : str) :
  Forall (fun c => sequence_char c = true) s ->
  Forall (fun l => l <> [] /\ Forall (fun c => sequence_char c = true) l)
         (wrap linelength s).
Proof. intros H. apply wrap_from_lines; [constructor|assumption]. Qed.

Lemma entry_lines_no_line_break (linelength : option Z) (k s : str) :
  plain_entry (k, s) = true ->
  Forall (Forall (fun c => no_line_break c = true))
         (entry_lines linelength (k, s)).
Proof.
  intros H. apply plain_entry_spec in H as (Hk & _ & _ & Hs).
  unfold entry_lines. cbn [fst snd]. constructor.
  - constructor; [reflexivity|assumption].
  - apply Forall_app. split; [|repeat constructor].
    eapply Forall_impl; [|apply (wrap_lines_plain linelength _ Hs)].
    intros l [_ Hl]. eapply Forall_impl; [|exact Hl].
    intros c Hc. apply not_space_no_line_break.
    now apply sequence_char_not_space in Hc.
Qed.

Lemma written_lines_no_line_break (linelength : option Z) (d : PyDict.pydict) :
  forallb plain_entry d = true ->
  Forall (Forall (fun c => no_line_break c = true))
         (concat (map (entry_lines linelength) d)).
Proof.
  induction d as [|[k s] d IH]; [constructor|].
  cbn [forallb map concat]. intros H. apply andb_prop in H as [He Hd].
  apply Forall_app. split; [now apply entry_lines_no_line_break|now apply IH].
Qed.

(** The lines of a written file hold the entries of the mapping and
    nothing before the first header line. *)
Lemma written_lines_entries (linelength : option Z) (d : PyDict.pydict) :
  forallb plain_entry d = true ->
  body_fragments
    (map (fun l => l ++ [LF]) (concat (map (entry_lines linelength) d))) = []
  /\ header_entries None
       (map (fun l => l ++ [LF]) (concat (map (entry_lines linelength) d))) = d.
Proof.
  induction d as [|[k s] d IH]; [now split|].
  cbn [forallb map concat]. intros H. apply andb_prop in H as [He Hd].
  destruct (IH Hd) as [IHb IHh].
  apply plain_entry_spec in He as (_ & Hk & Hne & Hs).
  pose proof (wrap_lines_plain linelength s Hs) as Hw.
  unfold entry_lines at 1 3. cbn [fst snd].
  rewrite <- app_comm_cons, <- app_assoc, map_cons, map_app.
  cbn [body_fragments header_entries]. rewrite (classify_header_line _ Hk).
  split; [reflexivity|]. unfold body.
  rewrite (body_fragments_fragment_lines _ _ Hw).
  rewrite (header_entries_fragment_lines _ _ _ Hw).
  cbn [app map body_fragments header_entries].
  rewrite classify_blank_line, IHb, IHh, app_nil_r.
  unfold wrap. rewrite wrap_from_concat. reflexivity.
Qed.

Lemma written_records (linelength : option Z) (d : PyDict.pydict) :
  forallb plain_entry d = true ->
  records None (readlines (file_text linelength d)) = map stored d.
Proof.
  intros H. unfold file_text.
  rewrite (readlines_terminated _ (written_lines_no_line_break linelength d H)).
  destruct (written_lines_entries linelength d H) as [Hb Hh].
  unfold records, body. rewrite Hb, Hh. cbn [concat filter].
  unfold has_sequence at 1. cbn [snd nonempty length Nat.ltb Nat.leb].
  f_equal. apply filter_all. clear Hb Hh.
  induction d as [|[k s] d IH]; [constructor|].
  cbn [forallb] in H. apply andb_prop in H as [He Hd].
  constructor; [|now apply IH].
  apply plain_entry_spec in He as (_ & _ & Hne & _).
  now apply nonempty_true.
Qed.

Lemma plain_entries_have_sequence (d : PyDict.pydict) :
  forallb plain_entry d = true -> Forall (fun e => snd e <> []) d.
Proof.
  induction d as [|[k s] d IH]; [constructor|].
  cbn [forallb]. intros H. apply andb_prop in H as [He Hd].
  constructor; [|now apply IH].
  now apply plain_entry_spec in He as (_ & _ & Hne & _).
Qed.

(** C3, as the specification states it, fails for the mapping
    [{'A': 'MK V'}] at width 2: the space is written at the start of a line
    and trimmed away when the file is read. *)
Lemma round_trip_counterexample :
  ~ round_trip ModeList true [(lit "A", lit "MK V")] (Some 2%Z).
Proof.
  intros (text & Hw & Hp). vm_compute in Hw.
  injection Hw as <-. vm_compute in Hp. discriminate.
Qed.

(** C3, amended.  For a mapping with distinct headers in which no header
    holds a line break or ends in white space and every sequence is non-empty
    and free of white space and of the header marker, and for every wrap
    width (a number from 1 on, or disabled), the mapping is written without
    error and the text written parses back, in list and in dict mode, to the
    same headers in the same order with the upper-cased sequences. *)
Theorem round_trip_plain_entries (m : mode) (u : bool)
    (sequence_dict : PyDict.pydict) (linelength : option Z) :
  NoDup (map fst sequence_dict) ->
  forallb plain_entry sequence_dict = true ->
  round_trip m u sequence_dict linelength.
Proof.
  intros Hnd Hplain. unfold round_trip, write_fasta_file.
  destruct (write_entries_text (sane_linelength linelength) sequence_dict
              (plain_entries_have_sequence _ Hplain) (WState [] None))
    as (fl & E).
  rewrite E. cbn [fh app].
  exists (file_text (sane_linelength linelength) sequence_dict).
  split; [reflexivity|].
  rewrite parse_characterisation, (written_records _ _ Hplain).
  rewrite map_fst_stored.
  apply first_duplicate_NoDup in Hnd. rewrite Hnd.
  now destruct (checks_headers m u).
Qed.

Lemma round_trip_plain_entries_witness :
  NoDup (map fst [(lit "sp|P1 human", lit "mkvlaa"); (lit "B", lit "QRS")])
  /\ forallb plain_entry
       [(lit "sp|P1 human", lit "mkvlaa"); (lit "B", lit "QRS")] = true
  /\ round_trip ModeList true
       [(lit "sp|P1 human", lit "mkvlaa"); (lit "B", lit "QRS")] (Some 4%Z).
Proof.
  assert (Hnd : NoDup (map fst [(lit "sp|P1 human", lit "mkvlaa");
                                (lit "B", lit "QRS")])).
  { repeat constructor; simpl; intuition discriminate. }
  split; [exact Hnd|]. split; [reflexivity|].
  exact (round_trip_plain_entries ModeList true _ (Some 4%Z) Hnd eq_refl).
Defined.

(** * Further properties of the parser *)

Lemma header_entries_renamed (f : str -> str) (content : list str) :
  header_entries (Some f) content
  = map (rename_header f) (header_entries None content).
Proof.
  induction content as [|l rest IH]; [reflexivity|].
  cbn [header_entries]. destruct (classify l); try assumption.
  cbn [map]. now rewrite IH.
Qed.

Lemma filter_renamed (f : str -> str) (es : list (str * str)) :
  map stored (filter has_sequence (map (rename_header f) es))
  = map (rename_header f) (map stored (filter has_sequence es)).
Proof.
  induction es as [|e es IH]; [reflexivity|].
  cbn [map filter].
  change (has_sequence (rename_header f e)) with (has_sequence e).
  destruct (has_sequence e); [|assumption].
  cbn [map]. now rewrite IH.
Qed.

Lemma records_split (hp : option (str -> str)) (content : list str) :
  records hp content = leading_record content ++ header_records hp content.
Proof.
  unfold records, leading_record, header_records.
  change (([], body content) :: header_entries hp content)
    with ([([], body content)] ++ header_entries hp content).
  now rewrite filter_app, map_app.
Qed.

(** X1.  The header parser renames the records of the header lines and
    nothing else: in list mode without the uniqueness check, the parse with
    [header_parser = f] is the parse with no header parser with [f] applied
    to every header, except that of the text before the first header line. *)
Theorem header_parser_renames_headers (f : str -> str) (content : list str) :
  _parse_fasta_all ModeList false None content
  = Ok (leading_record content ++ header_records None content)
  /\ _parse_fasta_all ModeList false (Some f) content
     = Ok (leading_record content
           ++ map (rename_header f) (header_records None content)).
Proof.
  rewrite !parse_characterisation. cbn [checks_headers].
  rewrite !records_split. split; [reflexivity|].
  unfold header_records at 1.
  now rewrite header_entries_renamed, filter_renamed.
Qed.

Lemma upper_char_not_lower (c : ascii) : is_lower (upper_char c) = false.
Proof.
  destruct c as [[] [] [] [] [] [] [] []]; reflexivity.
Qed.

Lemma records_upper_case (hp : option (str -> str)) (content : list str) :
  Forall (fun r => Forall (fun c => is_lower c = false) (snd r))
         (records hp content).
Proof.
  unfold records. apply Forall_map, Forall_forall. intros e _.
  unfold stored, upper. cbn [snd]. apply Forall_map, Forall_forall.
  intros c _. apply upper_char_not_lower.
Qed.

(** X2.  Whatever the mode and the options, no sequence of a returned
    collection holds a lower-case letter. *)
Theorem returned_sequences_upper_case (m : mode) (u : bool)
    (hp : option (str -> str)) (content : list str) :
  match _parse_fasta_all m u hp content with
  | Ok recs => Forall (fun r => Forall (fun c => is_lower c = false) (snd r)) recs
  | Raise _ => True
  end.
Proof.
  rewrite parse_characterisation.
  destruct (checks_headers m u); [destruct (first_duplicate _ _)|];
    try exact I; apply records_upper_case.
Qed.

Lemma classify_strip (a b : str) : strip a = strip b -> classify a = classify b.
Proof. unfold classify. now intros ->. Qed.

Lemma records_strip (hp : option (str -> str)) (c1 : list str) :
  forall c2, map strip c1 = map strip c2 ->
  body_fragments c1 = body_fragments c2
  /\ header_entries hp c1 = header_entries hp c2.
Proof.
  induction c1 as [|a c1 IH]; intros [|b c2] H; try discriminate;
    [now split|].
  cbn [map] in H. injection H as Hab Hrest.
  destruct (IH _ Hrest) as [IHb IHh].
  cbn [body_fragments header_entries]. unfold body.
  rewrite (classify_strip _ _ Hab), IHb, IHh. now split.
Qed.

(** X3.  A parse depends on a line only through its trimmed text: two
    inputs whose lines agree after [strip] (different indentation, trailing
    blanks, line terminators) give the same result, error included. *)
Theorem parse_depends_on_trimmed_lines (m : mode) (u : bool)
    (hp : option (str -> str)) (c1 c2 : list str) :
  map strip c1 = map strip c2 ->
  _parse_fasta_all m u hp c1 = _parse_fasta_all m u hp c2.
Proof.
  intros H. destruct (records_strip hp c1 c2 H) as [Hb Hh].
  rewrite !parse_characterisation. unfold records, body.
  now rewrite Hb, Hh.
Qed.

Lemma parse_depends_on_trimmed_lines_witness :
  map strip [lit ">A" ++ [LF]; lit "  MKV " ++ [CR; LF]]
  = map strip [lit " >A"; lit "MKV"]
  /\ _parse_fasta_all ModeList true None
       [lit ">A" ++ [LF]; lit "  MKV " ++ [CR; LF]]
     = _parse_fasta_all ModeList true None [lit " >A"; lit "MKV"].
Proof.
  split; [reflexivity|].
  exact (parse_depends_on_trimmed_lines ModeList true None
           [lit ">A" ++ [LF]; lit "  MKV " ++ [CR; LF]]
           [lit " >A"; lit "MKV"] eq_refl).
Defined.

Lemma entries_app (hp : option (str -> str)) (c1 c2 : list str) :
  body_fragments c2 = [] ->
  body_fragments (c1 ++ c2) = body_fragments c1
  /\ header_entries hp (c1 ++ c2) = header_entries hp c1 ++ header_entries hp c2.
Proof.
  intros H. induction c1 as [|l c1 [IHb IHh]]; [now split|].
  cbn [app body_fragments header_entries]. unfold body.
  destruct (classify l); rewrite ?IHb, ?IHh; now split.
Qed.

(** X4.  Appending an input that has no sequence text before its first
    header line appends its records: in list mode without the uniqueness
    check the parse of [c1 ++ c2] is the parse of [c1] followed by the parse
    of [c2]. *)
Theorem parse_concatenation (hp : option (str -> str)) (c1 c2 : list str) :
  body_fragments c2 = [] ->
  exists r1 r2,
    _parse_fasta_all ModeList false hp c1 = Ok r1
    /\ _parse_fasta_all ModeList false hp c2 = Ok r2
    /\ _parse_fasta_all ModeList false hp (c1 ++ c2) = Ok (r1 ++ r2).
Proof.
  intros H. exists (records hp c1), (records hp c2).
  rewrite !parse_characterisation. cbn [checks_headers].
  split; [reflexivity|]. split; [reflexivity|]. f_equal.
  destruct (entries_app hp c1 c2 H) as [Hb Hh].
  rewrite (records_split hp c2), (records_split hp (c1 ++ c2)),
    (records_split hp c1).
  unfold leading_record, header_records, body. rewrite Hb, Hh, H.
  cbn [concat filter has_sequence snd nonempty length Nat.ltb Nat.leb map app].
  now rewrite filter_app, map_app, app_assoc.
Qed.

Lemma parse_concatenation_witness :
  body_fragments (readlines Samples.two_records) = []
  /\ _parse_fasta_all ModeList false None
       (readlines Samples.text_before_header ++ readlines Samples.two_records)
     = Ok [([], lit "MKV"); (lit "B", lit "QRS");
           (lit "A", lit "MKV"); (lit "B", lit "QRS")].
Proof.
  split; [reflexivity|].
  destruct (parse_concatenation None (readlines Samples.text_before_header)
              (readlines Samples.two_records) eq_refl)
    as (r1 & r2 & H1 & H2 & H).
  vm_compute in H1, H2. injection H1 as <-. injection H2 as <-. exact H.
Defined.

Lemma entries_fragments (hp : option (str -> str)) (content : list str) :
  body content ++ concat (map snd (header_entries hp content))
  = concat (fragments content).
Proof.
  unfold body. induction content as [|l rest IH]; [reflexivity|].
  cbn [body_fragments header_entries fragments].
  destruct (classify l); cbn [concat map snd app]; try assumption.
  now rewrite <- app_assoc, IH.
Qed.

Lemma concat_stored (es : list (str * str)) :
  concat (map snd (map stored (filter has_sequence es)))
  = upper (concat (map snd es)).
Proof.
  induction es as [|[h s] es IH]; [reflexivity|].
  cbn [filter map concat snd]. unfold has_sequence at 1. cbn [snd].
  rewrite upper_app, <- IH. destruct s; reflexivity.
Qed.

Lemma records_sequence_text (hp : option (str -> str)) (content : list str) :
  concat (map snd (records hp content)) = upper (concat (fragments content)).
Proof.
  unfold records. rewrite concat_stored. cbn [map concat snd].
  now rewrite entries_fragments.
Qed.

(** X5.  No sequence character is lost, added or moved: the sequences of a
    returned collection, joined in order, are the upper-cased trimmed
    fragment lines of the input, joined in order. *)
Theorem returned_sequences_hold_all_fragments (m : mode) (u : bool)
    (hp : option (str -> str)) (content : list str) :
  match _parse_fasta_all m u hp content with
  | Ok recs => concat (map snd recs) = upper (concat (fragments content))
  | Raise _ => True
  end.
Proof.
  rewrite parse_characterisation.
  destruct (checks_headers m u); [destruct (first_duplicate _ _)|];
    try exact I; apply records_sequence_text.
Qed.

Lemma fragments_items (content : list str) :
  Forall (fun f => f <> []) (fragments content).
Proof.
  induction content as [|l rest IH]; simpl; [constructor|].
  unfold classify. destruct (strip l) as [|c h]; [assumption|].
  destruct (Ascii.eqb c GT); [assumption|].
  constructor; [discriminate|assumption].
Qed.

Lemma concat_nil_items (ls : list str) :
  Forall (fun l => l <> []) ls -> concat ls = [] -> ls = [].
Proof.
  intros H. destruct H as [|l ls Hl _]; [reflexivity|].
  simpl. intros E. apply app_eq_nil in E as [E _]. now destruct Hl.
Qed.

Lemma upper_nil (s : str) : upper s = [] -> s = [].
Proof. now destruct s. Qed.

Lemma records_nil (hp : option (str -> str)) (content : list str) :
  records hp content = [] <-> fragments content = [].
Proof.
  pose proof (records_sequence_text hp content) as E. split; intros H.
  - rewrite H in E. symmetry in E. apply upper_nil in E.
    now apply (concat_nil_items _ (fragments_items content)).
  - rewrite H in E. cbn [concat upper map] in E.
    pose proof (records_have_sequence hp content) as Hs.
    destruct Hs as [|r rs Hr _]; [reflexivity|].
    cbn [map concat] in E. apply app_eq_nil in E as [E _]. now destruct Hr.
Qed.

(** X6.  A parse returns the empty collection exactly when the input has no
    fragment line: an empty input, blank lines and header lines without
    sequence text give no record and no error, in every mode. *)
Theorem empty_collection_iff_no_fragment (m : mode) (u : bool)
    (hp : option (str -> str)) (content : list str) :
  _parse_fasta_all m u hp content = Ok [] <-> fragments content = [].
Proof.
  rewrite <- (records_nil hp content), parse_characterisation. split.
  - destruct (checks_headers m u); [destruct (first_duplicate _ _)|];
      congruence.
  - intros ->. now destruct (checks_headers m u).
Qed.

(** X7.  List mode with [expect_unique_header]: the parse returns the
    records when their headers are pairwise distinct; otherwise it raises
    the duplicate-header error for the first header, in source order, that
    repeats the header of an earlier record.  Header lines that are dropped
    for lack of sequence text take no part in the check. *)
Theorem unique_list_mode_reports_first_repeat (hp : option (str -> str))
    (content : list str) :
  (NoDup (map fst (records hp content))
   /\ _parse_fasta_all ModeList true hp content = Ok (records hp content))
  \/ exists pre h post,
       map fst (records hp content) = pre ++ h :: post
       /\ NoDup pre /\ In h pre
       /\ _parse_fasta_all ModeList true hp content
          = Raise (ProtfastaException (duplicate_message h)).
Proof.
  rewrite parse_characterisation. cbn [checks_headers].
  destruct (first_duplicate [] (map fst (records hp content))) as [h|] eqn:E.
  - right. destruct (first_duplicate_split _ _ _ E) as (pre & post & Hs & Hin & Hp).
    exists pre, h, post. repeat split; try assumption.
    now apply first_duplicate_NoDup.
  - left. split; [now apply first_duplicate_NoDup|reflexivity].
Qed.

(** X8.  Dict mode returns what list mode with [expect_unique_header]
    returns: the same items in the same order, or the same error. *)
Theorem dict_mode_is_unique_list_mode (u : bool) (hp : option (str -> str))
    (content : list str) :
  _parse_fasta_all ModeDict u hp content
  = _parse_fasta_all ModeList true hp content.
Proof. now rewrite !parse_characterisation. Qed.

(** * Further properties of the writer *)

Lemma write_fasta_file_text (d : PyDict.pydict) (linelength : option Z) :
  Forall (fun e => snd e <> []) d ->
  write_fasta_file d linelength = (file_text (sane_linelength linelength) d, None).
Proof.
  intros H. unfold write_fasta_file.
  destruct (write_entries_text (sane_linelength linelength) d H (WState [] None))
    as (fl & E).
  now rewrite E.
Qed.

(** X9.  What dict mode returns the writer can write: the dict returned by
    a parse in dict mode has pairwise distinct keys and no empty sequence,
    and [write_fasta_file] writes it without raising, every entry as its
    header line, its sequence lines and one blank line.  (A list-mode
    result is a list of pairs, not a mapping, and is no input of the
    writer.) *)
Theorem parsed_collection_is_writable (u : bool) (hp : option (str -> str))
    (content : list str) (linelength : option Z) :
  match _parse_fasta_all ModeDict u hp content with
  | Ok d =>
      NoDup (map fst d)
      /\ write_fasta_file d linelength
         = (file_text (sane_linelength linelength) d, None)
  | Raise _ => True
  end.
Proof.
  rewrite parse_characterisation. cbn [checks_headers].
  destruct (first_duplicate [] (map fst (records hp content))) eqn:E;
    [exact I|].
  split; [now apply first_duplicate_NoDup|].
  apply write_fasta_file_text, records_have_sequence.
Qed.

Lemma file_text_app (linelength : option Z) (d1 d2 : PyDict.pydict) :
  file_text linelength (d1 ++ d2)
  = file_text linelength d1 ++ file_text linelength d2.
Proof. unfold file_text. now rewrite map_app, concat_app, terminated_app. Qed.

(** X10.  Entries are written one after the other and independently: for
    mappings whose sequences are all non-empty, the file written for
    [d1 ++ d2] is the file written for [d1] followed by the file written for
    [d2], and none of the three calls raises. *)
Theorem write_concatenation (d1 d2 : PyDict.pydict) (linelength : option Z) :
  Forall (fun e => snd e <> []) d1 ->
  Forall (fun e => snd e <> []) d2 ->
  exists t1 t2,
    write_fasta_file d1 linelength = (t1, None)
    /\ write_fasta_file d2 linelength = (t2, None)
    /\ write_fasta_file (d1 ++ d2) linelength = (t1 ++ t2, None).
Proof.
  intros H1 H2.
  exists (file_text (sane_linelength linelength) d1),
         (file_text (sane_linelength linelength) d2).
  rewrite !write_fasta_file_text, ?file_text_app; try assumption.
  - now repeat split.
  - apply Forall_app. now split.
Qed.

Lemma write_concatenation_witness :
  Forall (fun e : str * str => snd e <> []) [(lit "A", lit "MKV")]
  /\ Forall (fun e : str * str => snd e <> []) [(lit "B", lit "QR")]
  /\ write_fasta_file ([(lit "A", lit "MKV")] ++ [(lit "B", lit "QR")]) (Some 2%Z)
     = (lit ">A" ++ [LF] ++ lit "MK" ++ [LF] ++ lit "V" ++ [LF; LF]
        ++ lit ">B" ++ [LF] ++ lit "QR" ++ [LF; LF], None).
Proof.
  assert (H1 : Forall (fun e : str * str => snd e <> []) [(lit "A", lit "MKV")])
    by (constructor; [discriminate|constructor]).
  assert (H2 : Forall (fun e : str * str => snd e <> []) [(lit "B", lit "QR")])
    by (constructor; [discriminate|constructor]).
  split; [exact H1|]. split; [exact H2|].
  destruct (write_concatenation [(lit "A", lit "MKV")] [(lit "B", lit "QR")]
              (Some 2%Z) H1 H2) as (t1 & t2 & E1 & E2 & E).
  vm_compute in E1, E2. injection E1 as <-. injection E2 as <-. exact E.
Defined.

Lemma wrap_from_short (n : Z) (s : str) : forall i cur,
  (0 <= i)%Z -> (i + Z.of_nat (length s) <= n)%Z -> cur ++ s <> [] ->
  wrap_from (Some n) i cur s = [cur ++ s].
Proof.
  induction s as [|c t IH]; intros i cur Hi Hn Hne.
  - simpl. rewrite app_nil_r in *. now destruct cur.
  - cbn [wrap_from breaks_after]. cbn [length] in Hn.
    rewrite Nat2Z.inj_succ in Hn.
    destruct ((i + 1) mod n =? 0)%Z eqn:E.
    + apply Z.eqb_eq in E.
      assert (i + 1 = n)%Z.
      { destruct (Z.eq_dec (i + 1) n) as [|Hlt]; [assumption|].
        rewrite Z.mod_small in E by lia. lia. }
      destruct t; [|simpl in Hn; lia]. reflexivity.
    + rewrite IH; [now rewrite <- app_assoc|lia|lia|now destruct cur].
Qed.

(** X11.  A sequence no longer than the line length takes one line and one
    blank line, exactly as with wrapping off; in particular a sequence that
    fills its line to the last column is not followed by two blank lines. *)
Theorem short_sequence_on_one_line (key s : str) (n : Z) :
  s <> [] -> (Z.of_nat (length s) <= n)%Z ->
  write_fasta_file [(key, s)] (Some n)
  = (GT :: key ++ [LF] ++ s ++ [LF; LF], None)
  /\ write_fasta_file [(key, s)] None
     = (GT :: key ++ [LF] ++ s ++ [LF; LF], None).
Proof.
  intros Hs Hn.
  assert (H : Forall (fun e : str * str => snd e <> []) [(key, s)])
    by (constructor; [exact Hs|constructor]).
  assert (Hpos : (1 <= n)%Z) by (destruct s; [now destruct Hs|simpl in Hn; lia]).
  rewrite !write_fasta_file_text by exact H.
  unfold file_text, entry_lines, wrap. cbn [map concat fst snd sane_linelength].
  replace (n <? 1)%Z with false by (symmetry; apply Z.ltb_ge; lia).
  rewrite (wrap_from_short n s 0%Z []), (wrap_from_unlimited s 0%Z [])
    by (simpl; try lia; assumption).
  rewrite app_nil_r. unfold terminated. cbn [map concat app].
  rewrite <- !app_assoc. split; reflexivity.
Qed.

Lemma short_sequence_on_one_line_witness :
  lit "MKV" <> []
  /\ (Z.of_nat (length (lit "MKV")) <= 3)%Z
  /\ write_fasta_file [(lit "A", lit "MKV")] (Some 3%Z)
     = (lit ">A" ++ [LF] ++ lit "MKV" ++ [LF; LF], None).
Proof.
  assert (H1 : lit "MKV" <> []) by discriminate.
  assert (H2 : (Z.of_nat (length (lit "MKV")) <= 3)%Z) by (vm_compute; discriminate).
  split; [exact H1|]. split; [exact H2|].
  exact (proj1 (short_sequence_on_one_line (lit "A") (lit "MKV") 3%Z H1 H2)).
Defined.

(** * Further properties of reading a file *)

Lemma readlines_to_crlf (text : str) :
  Forall (fun c => Ascii.eqb c CR = false) text ->
  readlines (to_crlf text) = readlines text.
Proof.
  induction 1 as [|c t Hc _ IH]; [reflexivity|].
  cbn [to_crlf readlines]. destruct (Ascii.eqb c LF) eqn:E.
  - cbn [readlines]. change (Ascii.eqb CR LF) with false.
    change (Ascii.eqb CR CR) with true. change (Ascii.eqb LF LF) with true.
    cbn iota. now rewrite IH.
  - cbn [readlines]. now rewrite E, Hc, IH.
Qed.

(** X12.  Line endings do not matter: a file without carriage returns and
    the same file with every LF replaced by CR LF give the same result. *)
Theorem crlf_file_parses_alike (fs1 fs2 : str -> file)
    (filename text : str) (u : bool) (hp : option (str -> str)) :
  fs1 filename = Contents text ->
  fs2 filename = Contents (to_crlf text) ->
  Forall (fun c => Ascii.eqb c CR = false) text ->
  internal_parse_fasta_file fs1 filename u hp
  = internal_parse_fasta_file fs2 filename u hp.
Proof.
  intros H1 H2 Hcr. unfold internal_parse_fasta_file.
  now rewrite H1, H2, (readlines_to_crlf _ Hcr).
Qed.

Lemma crlf_file_parses_alike_witness :
  Forall (fun c => Ascii.eqb c CR = false) Samples.two_records
  /\ internal_parse_fasta_file (fun _ => Contents (to_crlf Samples.two_records))
       (lit "x.fasta") true None
     = Ok [(lit "A", lit "MKV"); (lit "B", lit "QRS")].
Proof.
  assert (H : Forall (fun c => Ascii.eqb c CR = false) Samples.two_records)
    by (vm_compute; repeat constructor).
  split; [exact H|].
  rewrite <- (crlf_file_parses_alike (fun _ => Contents Samples.two_records)
                (fun _ => Contents (to_crlf Samples.two_records))
                (lit "x.fasta") Samples.two_records true None
                eq_refl eq_refl H).
  reflexivity.
Defined.

(** * Further properties of the validator *)

Ltac options_step :=
  cbn [bind not_bool is_bool andb negb not_in is_keyword passes_probe
       check_header_parser fail none_or_str is_literal is_True];
  try (right; split; [reflexivity|eexists; reflexivity]).

(** X13.  [check_inputs] returns normally exactly for these options: the two
    flags and [return_list] are booleans, the header parser is [None] or a
    function returning a string on the probe string, the three policies are
    strings with one of their keywords as content, the output file name is
    [None] or a string, and [duplicate_record_action] is not the literal
    ['ignore'] together with [expect_unique_header] true.  For all other
    options it raises a [ProtfastaException]. *)
Theorem check_inputs_accepts_exactly
    (expect_unique_header header_parser duplicate_record_action
     duplicate_sequence_action invalid_sequence_action return_list
     output_filename verbose : pyval) :
  (accepted expect_unique_header header_parser duplicate_record_action
     duplicate_sequence_action invalid_sequence_action return_list
     output_filename verbose = true
   /\ check_inputs expect_unique_header header_parser duplicate_record_action
        duplicate_sequence_action invalid_sequence_action return_list
        output_filename verbose = Ok tt)
  \/ (accepted expect_unique_header header_parser duplicate_record_action
        duplicate_sequence_action invalid_sequence_action return_list
        output_filename verbose = false
      /\ exists msg,
           check_inputs expect_unique_header header_parser
             duplicate_record_action duplicate_sequence_action
             invalid_sequence_action return_list output_filename verbose
           = Raise (ProtfastaException msg)).
Proof.
  unfold check_inputs, accepted.
  destruct expect_unique_header as [|eu| | |]; options_step.
  assert (Hprobe : check_header_parser header_parser = Ok tt
                   /\ passes_probe header_parser = true
                   \/ (exists msg, check_header_parser header_parser
                                   = Raise (ProtfastaException msg))
                      /\ passes_probe header_parser = false).
  { destruct header_parser as [| | | |f]; cbn;
      try (left; split; reflexivity);
      try (right; split; [eexists; reflexivity|reflexivity]).
    destruct (f _);
      try (left; split; reflexivity);
      right; split; try reflexivity; eexists; reflexivity. }
  destruct Hprobe as [[-> ->]|[[msg ->] ->]]; options_step.
  destruct duplicate_record_action as [| | |dra|]; options_step.
  destruct (str_in (chars dra) _); options_step.
  destruct duplicate_sequence_action as [| | |dsa|]; options_step.
  destruct (str_in (chars dsa) _); options_step.
  destruct invalid_sequence_action as [| | |isa|]; options_step.
  destruct (str_in (chars isa) _); options_step.
  destruct return_list; options_step.
  destruct output_filename; options_step;
    (destruct verbose; options_step);
    (destruct (interned dra && str_eqb (chars dra) (lit "ignore"));
     destruct eu; options_step; left; split; reflexivity).
Qed.

(** * Headers as the parser stores them *)

Lemma rstrip_tail (c : ascii) (t : str) :
  rstrip (c :: t) = c :: t -> rstrip t = t.
Proof.
  simpl. destruct (rstrip t) as [|x t'] eqn:E.
  - destruct (isspace c); [discriminate|]. now intros [= <-].
  - now intros [= <-].
Qed.

Lemma rstrip_lstrip (t : str) : rstrip t = t -> rstrip (lstrip t) = lstrip t.
Proof.
  induction t as [|c t IH]; intros H; [reflexivity|].
  cbn [lstrip]. destruct (isspace c); [|exact H].
  apply IH. exact (rstrip_tail _ _ H).
Qed.

Lemma rstrip_idempotent (s : str) : rstrip (rstrip s) = rstrip s.
Proof.
  induction s as [|c s IH]; [reflexivity|].
  cbn [rstrip]. destruct (rstrip s) as [|x t] eqn:E.
  - destruct (isspace c) eqn:Ec; [reflexivity|]. simpl. now rewrite Ec.
  - change (rstrip (c :: x :: t))
      with (match rstrip (x :: t) with
            | [] => if isspace c then [] else [c]
            | t' => c :: t'
            end).
    now rewrite IH.
Qed.

Lemma rstrip_strip (s : str) : rstrip (strip s) = strip s.
Proof. unfold strip. apply rstrip_lstrip, rstrip_idempotent. Qed.

Lemma header_entries_trimmed (content : list str) :
  Forall (fun e => rstrip (fst e) = fst e) (header_entries None content).
Proof.
  induction content as [|l rest IH]; [constructor|].
  cbn [header_entries]. unfold classify.
  pose proof (rstrip_strip l) as H.
  destruct (strip l) as [|c h]; [assumption|].
  destruct (Ascii.eqb c GT); [|assumption].
  constructor; [|assumption]. cbn [fst transform].
  exact (rstrip_tail _ _ H).
Qed.

(** X14.  Without a header parser no header of a returned collection ends
    in white space: the parser trims the header line before it cuts off the
    marker, so white space after the header text is lost (white space
    between the marker and the text is kept). *)
Theorem stored_headers_have_no_trailing_space (m : mode) (u : bool)
    (content : list str) :
  match _parse_fasta_all m u None content with
  | Ok recs => Forall (fun r => rstrip (fst r) = fst r) recs
  | Raise _ => True
  end.
Proof.
  assert (H : Forall (fun r => rstrip (fst r) = fst r) (records None content)).
  { unfold records. apply Forall_map. apply Forall_forall.
    intros e He. apply filter_In in He as [He _]. cbn [stored fst].
    destruct He as [<-|He]; [reflexivity|].
    pose proof (header_entries_trimmed content) as Ht.
    rewrite Forall_forall in Ht. now apply Ht. }
  rewrite parse_characterisation.
  destruct (checks_headers m u); [destruct (first_duplicate _ _)|];
    try exact I; exact H.
Qed.

(** * Reading, writing and reading again *)

Lemma upper_char_idempotent (c : ascii) :
  upper_char (upper_char c) = upper_char c.
Proof. destruct c as [[] [] [] [] [] [] [] []]; reflexivity. Qed.

Lemma upper_idempotent (s : str) : upper (upper s) = upper s.
Proof.
  unfold upper. rewrite map_map. apply map_ext. apply upper_char_idempotent.
Qed.

Lemma lstrip_Forall (P : ascii -> Prop) (s : str) :
  Forall P s -> Forall P (lstrip s).
Proof.
  induction 1 as [|c s Hc Hs IH]; [constructor|].
  cbn [lstrip]. destruct (isspace c); [assumption|now constructor].
Qed.

Lemma rstrip_Forall (P : ascii -> Prop) (s : str) :
  Forall P s -> Forall P (rstrip s).
Proof.
  induction 1 as [|c s Hc Hs IH]; [constructor|].
  cbn [rstrip]. destruct (rstrip s) as [|x t].
  - destruct (isspace c); repeat constructor; assumption.
  - now constructor.
Qed.

Lemma strip_Forall (P : ascii -> Prop) (s : str) :
  Forall P s -> Forall P (strip s).
Proof. intros H. now apply lstrip_Forall, rstrip_Forall. Qed.

Lemma push_char_shape (c : ascii) (lines : list str) :
  no_line_break c = true ->
  Forall (fun l => exists l', (l = l' ++ [LF] \/ l = l')
                   /\ Forall (fun x => no_line_break x = true) l') lines ->
  Forall (fun l => exists l', (l = l' ++ [LF] \/ l = l')
                   /\ Forall (fun x => no_line_break x = true) l')
         (push_char c lines).
Proof.
  intros Hc H. destruct H as [|l ls (l' & Hl & Hl') Hls]; simpl.
  - constructor; [|constructor]. exists [c]. split; [now right|].
    now repeat constructor.
  - constructor; [|assumption]. exists (c :: l'). split.
    + destruct Hl as [->| ->]; [now left|now right].
    + now constructor.
Qed.

(** A line of [readlines] holds no line break but the LF that ends it. *)
Lemma readlines_shape (n : nat) : forall text,
  length text <= n ->
  Forall (fun l => exists l', (l = l' ++ [LF] \/ l = l')
                   /\ Forall (fun x => no_line_break x = true) l')
         (readlines text).
Proof.
  assert (Hlf : exists l' : str,
            ([LF] = l' ++ [LF] \/ [LF] = l')
            /\ Forall (fun x => no_line_break x = true) l')
    by (exists []; split; [now left|constructor]).
  induction n as [|n IH]; intros text Hn.
  - destruct text; [constructor|simpl in Hn; lia].
  - destruct text as [|c t]; [constructor|].
    simpl in Hn. cbn [readlines].
    destruct (Ascii.eqb c LF) eqn:Elf.
    + constructor; [exact Hlf|apply IH; lia].
    + destruct (Ascii.eqb c CR) eqn:Ecr.
      * destruct t as [|d t']; [now repeat constructor|].
        simpl in Hn.
        destruct (Ascii.eqb d LF);
          (constructor; [exact Hlf|apply IH; simpl; lia]).
      * apply push_char_shape; [|apply IH; lia].
        unfold no_line_break. now rewrite Elf, Ecr.
Qed.

Lemma header_entries_no_line_break (content : list str) :
  Forall (fun l => exists l', (l = l' ++ [LF] \/ l = l')
                   /\ Forall (fun x => no_line_break x = true) l') content ->
  Forall (fun e => Forall (fun x => no_line_break x = true) (fst e))
         (header_entries None content).
Proof.
  induction 1 as [|l rest (l' & Hl & Hl') _ IH]; [constructor|].
  cbn [header_entries]. unfold classify.
  assert (Hs : Forall (fun x => no_line_break x = true) (strip l)).
  { destruct Hl as [->| ->]; [|now apply strip_Forall].
    unfold strip. rewrite rstrip_space_end by reflexivity.
    now apply strip_Forall. }
  destruct (strip l) as [|c h]; [assumption|].
  destruct (Ascii.eqb c GT); [|assumption].
  constructor; [|assumption]. cbn [fst transform]. now inversion Hs.
Qed.

Lemma Forall_forallb {A} (f : A -> bool) (l : list A) :
  Forall (fun x => f x = true) l -> forallb f l = true.
Proof. intros H. apply forallb_forall. now apply Forall_forall. Qed.

Lemma records_of_file_plain (text : str) :
  forallb (fun r => forallb sequence_char (snd r))
          (records None (readlines text)) = true ->
  forallb plain_entry (records None (readlines text)) = true.
Proof.
  intros Hseq. apply forallb_forall. intros r Hr.
  pose proof (proj1 (forallb_forall _ _) Hseq r Hr) as Hr_seq.
  pose proof (proj1 (Forall_forall _ _)
                (records_have_sequence None (readlines text)) r Hr) as Hr_ne.
  unfold plain_entry, plain_header, plain_sequence.
  apply nonempty_true in Hr_ne. rewrite Hr_ne, Hr_seq, andb_true_r.
  unfold records in Hr. apply in_map_iff in Hr as (e & <- & He).
  apply filter_In in He as [He _]. cbn [stored fst].
  destruct He as [<-|He]; [reflexivity|].
  apply andb_true_intro. split.
  - apply Forall_forallb.
    pose proof (header_entries_no_line_break _
                  (readlines_shape (length text) text (le_n _))) as H.
    rewrite Forall_forall in H. now apply H.
  - apply str_eqb_eq.
    pose proof (header_entries_trimmed (readlines text)) as H.
    rewrite Forall_forall in H. now apply H.
Qed.

Lemma stored_records (hp : option (str -> str)) (content : list str) :
  map stored (records hp content) = records hp content.
Proof.
  unfold records. rewrite map_map. apply map_ext. intros e.
  unfold stored. cbn [fst snd]. now rewrite upper_idempotent.
Qed.

(** X15.  Reading, writing and reading again gives the dict read the first
    time: if the lines of a file parse in dict mode to a dict whose
    sequences hold neither white space nor the header marker, then
    [write_fasta_file] writes that dict without error, at every line length,
    and the lines of the text written parse, in dict mode to the same dict
    and in list mode to its items in the same order. *)
Theorem read_write_read (m' : mode) (u u' : bool) (text : str)
    (d : PyDict.pydict) (linelength : option Z) :
  _parse_fasta_all ModeDict u None (readlines text) = Ok d ->
  forallb (fun r => forallb sequence_char (snd r)) d = true ->
  exists text',
    write_fasta_file d linelength = (text', None)
    /\ _parse_fasta_all m' u' None (readlines text') = Ok d.
Proof.
  intros Hparse Hseq.
  rewrite parse_characterisation in Hparse. cbn [checks_headers] in Hparse.
  destruct (first_duplicate [] (map fst (records None (readlines text))))
    eqn:Hnd; [discriminate|].
  injection Hparse as <-.
  pose proof (records_of_file_plain text Hseq) as Hplain.
  exists (file_text (sane_linelength linelength) (records None (readlines text))).
  split.
  - apply write_fasta_file_text, records_have_sequence.
  - rewrite parse_characterisation, (written_records _ _ Hplain).
    rewrite stored_records, Hnd.
    now destruct (checks_headers m' u').
Qed.

Lemma read_write_read_witness :
  _parse_fasta_all ModeDict true None (readlines Samples.two_records)
  = Ok [(lit "A", lit "MKV"); (lit "B", lit "QRS")]
  /\ forallb (fun r : str * str => forallb sequence_char (snd r))
       [(lit "A", lit "MKV"); (lit "B", lit "QRS")] = true
  /\ exists text',
       write_fasta_file [(lit "A", lit "MKV"); (lit "B", lit "QRS")] (Some 2%Z)
       = (text', None)
       /\ _parse_fasta_all ModeDict false None (readlines text')
          = Ok [(lit "A", lit "MKV"); (lit "B", lit "QRS")].
Proof.
  split; [reflexivity|]. split; [reflexivity|].
  exact (read_write_read ModeDict true false Samples.two_records
           [(lit "A", lit "MKV"); (lit "B", lit "QRS")] (Some 2%Z)
           eq_refl eq_refl).
Defined.

(** * When the writer raises *)

Lemma write_chars_bound (linelength : option Z) (s : str) : forall i st b,
  wrotenewline st = Some b ->
  exists b', wrotenewline (write_chars linelength i s st) = Some b'.
Proof.
  induction s as [|c t IH]; intros i st b H; [now exists b|].
  cbn [write_chars]. destruct linelength as [n|].
  - destruct ((i + 1) mod n =? 0)%Z; eapply IH; reflexivity.
  - eapply IH. reflexivity.
Qed.

Lemma write_chars_assigns (linelength : option Z) (c : ascii) (t : str)
    (i : Z) (st : wstate) :
  exists b, wrotenewline (write_chars linelength i (c :: t) st) = Some b.
Proof.
  cbn [write_chars]. destruct linelength as [n|].
  - destruct ((i + 1) mod n =? 0)%Z; eapply write_chars_bound; reflexivity.
  - eapply write_chars_bound. reflexivity.
Qed.

Lemma write_entries_bound (linelength : option Z) (d : PyDict.pydict) :
  forall st b,
    wrotenewline st = Some b -> snd (write_entries linelength d st) = None.
Proof.
  induction d as [|[key s] d IH]; intros st b H; [reflexivity|].
  cbn [write_entries].
  destruct (write_chars_bound linelength s 0%Z
              (write ([GT] ++ key ++ [LF]) st) b H) as (b' & Hb').
  rewrite Hb'. destruct b'; eapply IH; cbn [write wrotenewline]; exact Hb'.
Qed.

(** X16.  [write_fasta_file] raises in one case only: when the first entry
    of the mapping has an empty sequence (the unbound [wrotenewline]).  An
    empty mapping and a mapping whose first sequence is not empty are
    written to the end, empty sequences further down included. *)
Theorem writer_raises_only_on_empty_first_sequence (d : PyDict.pydict)
    (linelength : option Z) :
  snd (write_fasta_file d linelength)
  = match d with
    | (_, []) :: _ => Some (UnboundLocalError (lit "wrotenewline"))
    | _ => None
    end.
Proof.
  unfold write_fasta_file.
  destruct d as [|[key [|c t]] d]; [reflexivity|reflexivity|].
  cbn [write_entries].
  destruct (write_chars_assigns (sane_linelength linelength) c t 0%Z
              (write ([GT] ++ key ++ [LF]) (WState [] None))) as (b & Hb).
  rewrite Hb.
  destruct b;
    match goal with
    | |- snd (let (st, e) := write_entries ?l ?d ?s in _) = _ =>
        assert (H : snd (write_entries l d s) = None)
          by (eapply write_entries_bound; cbn [write wrotenewline]; exact Hb);
        destruct (write_entries l d s); exact H
    end.
Qed.
